(** * QuickUMLS FHIR installer: a shallow embedding of [quickumls/install_fhir.py]

    The development follows the Python module function by function:
    [process_concept] (concept to records), [extract_from_fhir] (the paged
    retrieval), [parse_and_encode_ngrams] (the two stores) and [main]
    (directory preparation, the [unidecode] check, the flag files).

    Python strings are sequences of code points: they are lists of [N].
    Python's [set] is a [gset]; its iteration order is unspecified in
    Python and is whatever [elements] gives here, so every statement below
    is about membership and counting, never about the order of records. *)

From Stdlib Require Import NArith ZArith String Ascii.
From stdpp Require Import base decidable list gmap sets.

Local Open Scope Z_scope.
Local Open Scope list_scope.

#[local] Set Warnings "-clear-no-such-hyp".

(** ** Strings *)

Abbreviation str := (list N).

(** An ASCII literal of the source as a code-point string. *)
Definition lit (s : string) : str := map N_of_ascii (list_ascii_of_string s).
Arguments lit : simpl never.

(** [str.isspace] on one code point (CPython's [_PyUnicode_IsWhitespace]). *)
Definition is_space (c : N) : bool :=
  (((9 <=? c) && (c <=? 13)) || ((28 <=? c) && (c <=? 32))
   || (c =? 133) || (c =? 160) || (c =? 5760)
   || ((8192 <=? c) && (c <=? 8202))
   || (c =? 8232) || (c =? 8233) || (c =? 8239) || (c =? 8287)
   || (c =? 12288))%N.

Fixpoint lstrip (s : str) : str :=
  match s with
  | [] => []
  | c :: s' => if is_space c then lstrip s' else s
  end.

Definition rstrip (s : str) : str := rev (lstrip (rev s)).

(** [s.strip()] *)
Definition strip (s : str) : str := rstrip (lstrip s).

(** [s.endswith(suf)] *)
Definition endswith (s suf : str) : bool := bool_decide (suf `suffix_of` s).

(** [s[:-k]] for [k > 0]: everything but the last [k] code points, the
    empty string when [s] is shorter than [k]. *)
Definition drop_last (k : nat) (s : str) : str := take (length s - k)%nat s.

(** [s.startswith(pre)] *)
Definition startswith (s pre : str) : bool := bool_decide (pre `prefix_of` s).

(** ** Constants of the module *)

Definition SNOMED_SEMANTIC_TYPES : list str :=
  map lit
  [ "OWL metadata concept"; "administration method"; "assessment scale";
    "attribute"; "basic dose form"; "body structure"; "cell structure";
    "cell"; "clinical drug"; "core metadata concept"; "disorder";
    "disposition"; "dose form"; "environment / location"; "environment";
    "ethnic group"; "event"; "finding"; "foundation metadata concept";
    "geographic location"; "inactive concept"; "intended site";
    "life style"; "link assertion"; "linkage concept";
    "medicinal product form"; "medicinal product"; "metadata";
    "morphologic abnormality"; "namespace concept"; "navigational concept";
    "number"; "observable entity"; "occupation"; "organism"; "person";
    "physical force"; "physical object"; "procedure"; "product name";
    "product"; "qualifier value"; "racial group"; "record artifact";
    "regime/therapy"; "release characteristic"; "religion/philosophy";
    "role"; "situation"; "social concept"; "special concept"; "specimen";
    "staging scale"; "staging scales"; "state of matter"; "substance";
    "supplier"; "transformation"; "tumor staging"; "unit of presentation"
  ]%string.

Definition FHIR_LANGUAGES : list (str * str) :=
  map (fun p => (lit (fst p), lit (snd p)))
  [ ("BAQ", "eu"); ("CHI", "zh"); ("CZE", "cs"); ("DAN", "da");
    ("DUT", "nl"); ("ENG", "en"); ("EST", "et"); ("FIN", "fi");
    ("FRE", "fr"); ("GER", "de"); ("GRE", "el"); ("HEB", "he");
    ("HUN", "hu"); ("ITA", "it"); ("JPN", "ja"); ("KOR", "ko");
    ("LAV", "lv"); ("NOR", "no"); ("POL", "pl"); ("POR", "pt");
    ("RUS", "ru"); ("SCR", "hr"); ("SPA", "es"); ("SWE", "sv");
    ("TUR", "tr") ]%string.

(** The three literals [process_concept] compares against. *)
Definition SNOMED_URI : str := lit "http://snomed.info/sct".
Definition SYNONYM_CODE : str := lit "900000000000013009".
Definition FSN_CODE : str := lit "900000000000003001".

(** ** Data *)

(** [designation['use']['system']], [designation['use']['code']],
    [designation['value']]. *)
Record Designation := mkDesignation {
  use_system : str;
  use_code : str;
  value : str
}.

(** A concept of [expansion.contains]; [designation] is [None] when the key
    is absent from the JSON object. *)
Record Concept := mkConcept {
  code : str;
  system : str;
  display : str;
  designation : option (list Designation)
}.

(** The parsed command line ([parse_args]). *)
Record Opts := mkOpts {
  valueset_url : str;
  destination_path : str;
  fhir_server : str;
  lowercase : bool;
  normalize_unicode : bool;
  database_backend : str;
  language : str;
  semantic : str
}.

(** The tuple [process_concept] yields:
    [(synonym, code, [semantic_type], synonym == preferred_name)]. *)
Record ExtractedRecord := mkRecord {
  term : str;
  cui : str;
  stys : list str;
  preferred : bool
}.

#[global] Instance Designation_eq_dec : EqDecision Designation.
Proof. solve_decision. Defined.

#[global] Instance ExtractedRecord_eq_dec : EqDecision ExtractedRecord.
Proof. solve_decision. Defined.

(** ** [process_concept] *)

(** The state of the designation loop: the [synonyms] set and
    [semantic_type]. *)
Definition ConceptState : Type := gset str * str.

(** The inner [for type in SNOMED_SEMANTIC_TYPES: ... break] loop, on the
    types still to try.  No type matching leaves the state as it is. *)
Fixpoint scan_types (v : str) (types : list str) (st : ConceptState)
  : ConceptState :=
  match types with
  | [] => st
  | type :: rest =>
      if endswith v (lit "(" ++ type ++ lit ")")
      then ({[ strip (drop_last (length type + 2) v) ]} ∪ st.1, type)
      else scan_types v rest st
  end.

(** The type the inner loop stops at, if it stops: the first entry [t] of
    [types] with [v.endswith('(' + t + ')')].  [scan_types_spec] below ties
    it to the loop. *)
Fixpoint matching_type (v : str) (types : list str) : option str :=
  match types with
  | [] => None
  | type :: rest =>
      if endswith v (lit "(" ++ type ++ lit ")") then Some type
      else matching_type v rest
  end.

(** The type a designation recovers on a SNOMED concept: the one its
    iteration assigns to [semantic_type], if it assigns any. *)
Definition recovered_type (d : Designation) : option str :=
  if bool_decide (use_system d = SNOMED_URI)
     && bool_decide (use_code d = FSN_CODE)
  then matching_type (value d) SNOMED_SEMANTIC_TYPES
  else None.

(** One iteration of [for designation in concept['designation']]. *)
Definition designation_step (system : str) (st : ConceptState)
  (d : Designation) : ConceptState :=
  if bool_decide (use_system d = SNOMED_URI) then
    if bool_decide (use_code d = SYNONYM_CODE) then
      ({[ strip (value d) ]} ∪ st.1, st.2)
    else if bool_decide (use_code d = FSN_CODE) then
      if bool_decide (system = SNOMED_URI) then
        scan_types (value d) SNOMED_SEMANTIC_TYPES st
      else
        ({[ strip (value d) ]} ∪ st.1, st.2)
    else st
  else st.

Section Collaborators.

(** [str.lower] and [unidecode.unidecode]: library functions the module
    calls, taken as parameters. *)
Variable lower : str -> str.
Variable unidecode : str -> str.

(** The two rewrites of [synonym] at the head of the emitting loop,
    [if opts.lowercase: synonym = synonym.lower()] and then
    [if opts.normalize_unicode: synonym = unidecode(synonym)]. *)
Definition normalize (s : str) (L U : bool) : str :=
  let s := if L then lower s else s in
  let s := if U then unidecode s else s in
  s.

(** The state after the designation loop. *)
Definition concept_state (concept : Concept) (opts : Opts) : ConceptState :=
  let preferred_name := strip (display concept) in
  let st0 : ConceptState := ({[ preferred_name ]}, semantic opts) in
  match designation concept with
  | Some ds => foldl (designation_step (system concept)) st0 ds
  | None => st0
  end.

(** The body of [for synonym in synonyms]: the loop variable is rebound
    to its normalized form before it is compared with
    [preferred_name]. *)
Definition emit (concept : Concept) (opts : Opts) (semantic_type : str)
  (synonym : str) : ExtractedRecord :=
  let preferred_name := strip (display concept) in
  let synonym :=
    normalize synonym (lowercase opts) (normalize_unicode opts) in
  mkRecord synonym (code concept) [semantic_type]
           (bool_decide (synonym = preferred_name)).

Definition process_concept (concept : Concept) (opts : Opts)
  : list ExtractedRecord :=
  let st := concept_state concept opts in
  map (emit concept opts st.2) (elements st.1).

End Collaborators.

(** ** [extract_from_fhir] *)

(** [FHIR_LANGUAGES[k] if k in FHIR_LANGUAGES else 'en'] *)
Definition fhir_language (k : str) : str :=
  match list_find (fun p => p.1 = k) FHIR_LANGUAGES with
  | Some (_, p) => p.2
  | None => lit "en"
  end.

(** One [session.get(request_url, params=request_params)]. *)
Record Request := mkRequest {
  request_url : str;
  p_count : Z;
  p_offset : Z;
  p_displayLanguage : str;
  p_includeDesignations : str;
  p_activeOnly : str;
  p_url : str
}.

(** [r.json()['expansion']]: the fields the module reads. *)
Record Expansion := mkExpansion {
  total : Z;
  contains : list Concept
}.

(** What the generator has done when it is exhausted: the requests it
    sent, in order, and the items it yielded, in order. *)
Record Extraction (A : Type) := mkExtraction {
  requests : list Request;
  yielded : list A
}.
Arguments mkExtraction {A} _ _.
Arguments requests {A} _.
Arguments yielded {A} _.

Section Paginator.

(** The terminology server answers a request with an expansion. *)
Variable server : Request -> Expansion.

(** What is yielded for one concept of a page.  The module yields
    [process_concept(concept, opts)]; yielding the concept itself gives
    the stream of raw concepts. *)
Context {A : Type}.
Variable per_concept : Concept -> Opts -> list A.

Definition request_for (opts : Opts) (count offset : Z) : Request :=
  let add_slash := if endswith (fhir_server opts) (lit "/") then lit ""
                   else lit "/" in
  mkRequest (fhir_server opts ++ add_slash ++ lit "ValueSet/$expand?")
            count offset (fhir_language (language opts))
            (lit "true") (lit "true") (valueset_url opts).

(** [while offset < number_found: ...], with [fuel] bounding the number of
    iterations; [None] when the bound is reached with the condition still
    true. *)
Fixpoint more_pages (fuel : nat) (opts : Opts) (count offset number_found : Z)
  : option (Extraction A) :=
  if offset <? number_found then
    match fuel with
    | O => None
    | S fuel' =>
        let request := request_for opts count offset in
        let result_json := server request in
        match more_pages fuel' opts count (offset + count) number_found with
        | Some rest =>
            Some (mkExtraction
                    (request :: requests rest)
                    (flat_map (fun concept => per_concept concept opts)
                             (contains result_json)
                     ++ yielded rest))
        | None => None
        end
    end
  else Some (mkExtraction [] []).

Definition extract_from_fhir (opts : Opts) : option (Extraction A) :=
  let count := 100 in
  let offset := 0 in
  let request := request_for opts count offset in
  let result_json := server request in
  let number_found := total result_json in
  let offset := offset + count in
  match more_pages (Z.to_nat number_found) opts count offset number_found with
  | Some rest =>
      Some (mkExtraction
              (request :: requests rest)
              (flat_map (fun concept => per_concept concept opts)
                             (contains result_json) ++ yielded rest))
  | None => None
  end.

End Paginator.

(** Yielding each concept as it comes: the stream of raw concepts the
    pages deliver. *)
Definition raw_concept (concept : Concept) (_ : Opts) : list Concept :=
  [concept].

(** ** [parse_and_encode_ngrams] *)

(** The two stores are write-only here; each is the sequence of [insert]
    calls made on it, and [made_dirs] the two [mkdir] calls.  The
    [database_backend] argument only selects the implementation of the
    key-value store and is not modelled.  What the function does to the
    world around it, the two directories and the [print] of each record,
    is in [main], where the world is. *)
Record Stores := mkStores {
  made_dirs : list str;
  simstring_terms : gset str;
  ss_db : list str;
  cuisty_db : list ExtractedRecord
}.

(** The body of the loop over [extracted_it]. *)
Definition index_record (st : Stores) (r : ExtractedRecord) : Stores :=
  let st :=
    if bool_decide (term r ∈ simstring_terms st) then st
    else mkStores (made_dirs st) ({[ term r ]} ∪ simstring_terms st)
                  (ss_db st ++ [term r]) (cuisty_db st) in
  mkStores (made_dirs st) (simstring_terms st) (ss_db st)
           (cuisty_db st ++ [r]).

Definition parse_and_encode_ngrams (extracted_it : list ExtractedRecord)
  (simstring_dir cuisty_dir : str) : Stores :=
  foldl index_record (mkStores [simstring_dir; cuisty_dir] ∅ [] [])
        extracted_it.

(** The invariant of the loop over [extracted_it]: the set mirrors the
    similarity inserts, which are pairwise distinct and are exactly the
    terms of the key-value inserts. *)
Definition stores_consistent (st : Stores) : Prop :=
  (∀ t, t ∈ simstring_terms st ↔ t ∈ ss_db st)
  ∧ NoDup (ss_db st)
  ∧ (∀ t, t ∈ ss_db st ↔ t ∈ map term (cuisty_db st)).

(** ** [main] *)

(** What a path in the destination directory is: a file with its content,
    or a directory. *)
Inductive Entry :=
| File (content : str)
| Directory.

#[global] Instance Entry_eq_dec : EqDecision Entry.
Proof. solve_decision. Defined.

(** What the process can see and change outside itself: the destination
    directory ([None] when the path does not exist, else the paths
    directly in it), the lines still to be read by [input], and the two
    output streams, one element per [print] call. *)
Record World := mkWorld {
  dest : option (list (str * Entry));
  keyboard : list str;
  stdout : list str;
  stderr : list str
}.

(** How a computation ends: it returns, it calls [exit], or an exception
    escapes. *)
Inductive Outcome (A : Type) :=
| Returned (a : A)
| Exited (status : Z)
| Raised (exn : str).
Arguments Returned {A} _.
Arguments Exited {A} _.
Arguments Raised {A} _.

Definition Prog (A : Type) : Type := World -> Outcome A * World.

Definition ret {A} (a : A) : Prog A := fun w => (Returned a, w).

Definition bind {A B} (m : Prog A) (k : A -> Prog B) : Prog B :=
  fun w =>
    match m w with
    | (Returned a, w') => k a w'
    | (Exited s, w') => (Exited s, w')
    | (Raised e, w') => (Raised e, w')
    end.

Notation "x <- m ;; k" := (bind m (fun x => k))
  (at level 100, m at next level, right associativity).
Notation "m ;; k" := (bind m (fun _ => k))
  (at level 100, right associativity).

Definition exit {A} (status : Z) : Prog A := fun w => (Exited status, w).

Definition raise {A} (exn : str) : Prog A := fun w => (Raised exn, w).

Definition print (msg : str) : Prog unit :=
  fun w => (Returned tt,
            mkWorld (dest w) (keyboard w) (stdout w ++ [msg]) (stderr w)).

Definition print_stderr (msg : str) : Prog unit :=
  fun w => (Returned tt,
            mkWorld (dest w) (keyboard w) (stdout w) (stderr w ++ [msg])).

(** [input(msg)]: the prompt is written, then one line is read; at the
    end of the input [EOFError] is raised, the prompt already written. *)
Definition input (msg : str) : Prog str :=
  fun w =>
    match keyboard w with
    | [] =>
        (Raised (lit "EOFError"),
         mkWorld (dest w) [] (stdout w ++ [msg]) (stderr w))
    | line :: rest =>
        (Returned line, mkWorld (dest w) rest (stdout w ++ [msg]) (stderr w))
    end.

Definition path_exists : Prog bool :=
  fun w => (Returned (bool_decide (is_Some (dest w))), w).

Definition listdir : Prog (list (str * Entry)) :=
  fun w =>
    match dest w with
    | Some entries => (Returned entries, w)
    | None => (Raised (lit "FileNotFoundError"), w)
    end.

(** [os.makedirs] and [os.mkdir] on the destination path. *)
Definition makedirs : Prog unit :=
  fun w =>
    match dest w with
    | Some _ => (Raised (lit "FileExistsError"), w)
    | None => (Returned tt,
               mkWorld (Some []) (keyboard w) (stdout w) (stderr w))
    end.

Definition rmtree : Prog unit :=
  fun w =>
    match dest w with
    | Some _ => (Returned tt, mkWorld None (keyboard w) (stdout w) (stderr w))
    | None => (Raised (lit "FileNotFoundError"), w)
    end.

(** [os.path.join(opts.destination_path, name)] *)
Definition path_join (a b : str) : str :=
  if startswith b (lit "/") then b
  else if bool_decide (a = []) || endswith a (lit "/") then a ++ b
  else a ++ lit "/" ++ b.

(** [open(fp, 'w')], a write of [content], and the close.  A file of
    that path is replaced; a directory of that path makes [open] fail. *)
Definition write_file (fp content : str) : Prog unit :=
  fun w =>
    match dest w with
    | Some entries =>
        if bool_decide ((fp, Directory) ∈ entries)
        then (Raised (lit "IsADirectoryError"), w)
        else
          (Returned tt,
           mkWorld (Some (filter (fun e => e.1 ≠ fp) entries
                          ++ [(fp, File content)]))
                   (keyboard w) (stdout w) (stderr w))
    | None => (Raised (lit "FileNotFoundError"), w)
    end.

(** Modelled from the spec: [toolbox.mkdir], which
    [parse_and_encode_ngrams] calls on the two store directories, is not
    in the source at hand.  The spec has the two stores created under the
    destination path as separate subdirectories, the creation idempotent
    (create-if-missing): a path already there is left as it is, a missing
    one becomes a directory, the destination with it when that is missing
    too. *)
Definition mkdir (path : str) : Prog unit :=
  fun w =>
    match dest w with
    | Some entries =>
        if bool_decide (path ∈ map fst entries) then (Returned tt, w)
        else (Returned tt,
              mkWorld (Some (entries ++ [(path, Directory)]))
                      (keyboard w) (stdout w) (stderr w))
    | None => (Returned tt,
               mkWorld (Some [(path, Directory)])
                       (keyboard w) (stdout w) (stderr w))
    end.

(** A sequence of [print] calls. *)
Definition print_all (msgs : list str) : Prog unit :=
  fun w => (Returned tt,
            mkWorld (dest w) (keyboard w) (stdout w ++ msgs) (stderr w)).

(** What [main] returns when it reaches its end: the requests the
    generator sent and the state of the two stores; [None] stands for a
    generator that is never exhausted. *)
Definition Pipeline : Type := option (list Request * Stores).

Definition unidecode_error : str :=
  lit "`unidecode` is needed for unicode normalizationplease install it via the `[sudo] pip install unidecode` command.".

Section Main.

Variable lower : str -> str.

(** The name [unidecode] after the guarded import at the top of the
    module: bound to the function, or unbound. *)
Variable unidecode_name : option (str -> str).

Variable server : Request -> Expansion.

(** The text [print(term, cui, stys, preferred)] writes for a record, and
    the text of the status line, [COMPLETED: ... in ... s], for the total
    reported and the time the run took: Python's formatting of a list of
    strings and the clock are outside the module. *)
Variable record_line : ExtractedRecord -> str.
Variable status_line : Z -> str.

(** The function behind the name where the pipeline calls it.  [main]
    leaves before the pipeline when the name is unbound and the flag
    set; with the flag unset [process_concept] never calls it. *)
Definition unidecode_fn : str -> str :=
  match unidecode_name with
  | Some f => f
  | None => fun s => s
  end.

(** [main], after [parse_args] has produced [opts].  [install_spacy]
    only loads or downloads a spaCy model and is left out.  The generator
    is consumed by [parse_and_encode_ngrams]: that function first makes
    the two store directories, then prints each record as it inserts it;
    the generator prints the status line when it is exhausted, after the
    last record. *)
Definition main (opts : Opts) : Prog Pipeline :=
  exists_ <- path_exists ;;
  (if negb exists_ then
     answer <- input (lit "Directory " ++ [34%N] ++ destination_path opts
                      ++ [34%N]
                      ++ lit " does not exists; should I create it? [y/N] ") ;;
     let create := bool_decide (strip (lower answer) = lit "y") in
     if create then makedirs
     else (print (lit "Aborting.") ;; exit 1)
   else ret tt) ;;
  entries <- listdir ;;
  (if bool_decide (0 < length entries)%nat then
     answer <- input (lit "Directory " ++ [34%N] ++ destination_path opts
                      ++ [34%N]
                      ++ lit " is not empty; should I empty it? [y/N] ") ;;
     let empty := bool_decide (strip (lower answer) = lit "y") in
     if empty then (rmtree ;; makedirs)
     else (print (lit "Aborting.") ;; exit 1)
   else ret tt) ;;
  (if normalize_unicode opts then
     match unidecode_name with
     | Some _ => ret tt
     | None => print_stderr unidecode_error ;; exit 1
     end ;;
     write_file (path_join (destination_path opts)
                           (lit "normalize-unicode.flag")) []
   else ret tt) ;;
  (if lowercase opts then
     write_file (path_join (destination_path opts) (lit "lowercase.flag")) []
   else ret tt) ;;
  write_file (path_join (destination_path opts) (lit "language.flag"))
             (language opts) ;;
  write_file (path_join (destination_path opts) (lit "database_backend.flag"))
             (database_backend opts) ;;
  let fhir_iterator :=
    extract_from_fhir server (process_concept lower unidecode_fn) opts in
  let simstring_dir :=
    path_join (destination_path opts) (lit "umls-simstring.db") in
  let cuisty_dir :=
    path_join (destination_path opts) (lit "cui-semtypes.db") in
  mkdir simstring_dir ;;
  mkdir cuisty_dir ;;
  match fhir_iterator with
  | Some ex =>
      print_all (map record_line (yielded ex)) ;;
      print (status_line (total (server (request_for opts 100 0)))) ;;
      ret (Some (requests ex,
                 parse_and_encode_ngrams (yielded ex) simstring_dir
                                         cuisty_dir))
  | None => ret None
  end.

End Main.

(** ** Sample collaborators and inputs

    Concrete stand-ins used to run the definitions: [str.lower] restricted
    to the ASCII letters, and a fragment of [unidecode]'s table. *)

(** [str.lower] on ASCII: [A]..[Z] to [a]..[z], every other code point
    left alone. *)
Definition ascii_lower (s : str) : str :=
  map (fun c => if ((65 <=? c) && (c <=? 90))%N then (c + 32)%N else c) s.

(** A fragment of [unidecode]: ASCII is kept, U+00E9 gives [e], U+5317
    gives [Bei ] (capital B, trailing blank); nothing else is in the
    fragment, and is dropped. *)
Definition unidecode_char (c : N) : str :=
  if (c <? 128)%N then [c]
  else if (c =? 233)%N then lit "e"
  else if (c =? 21271)%N then lit "Bei "
  else [].

Definition sample_unidecode (s : str) : str := flat_map unidecode_char s.

Definition sample_opts (L U : bool) : Opts :=
  mkOpts (lit "http://snomed.info/sct?fhir_vs")
         (lit "/tmp/quickumls")
         (lit "https://tx.ontoserver.csiro.au/fhir")
         L U (lit "unqlite") (lit "ENG") (lit "UNKNOWN").

Definition syn_designation (v : string) : Designation :=
  mkDesignation SNOMED_URI SYNONYM_CODE (lit v).

Definition fsn_designation (v : string) : Designation :=
  mkDesignation SNOMED_URI FSN_CODE (lit v).

Definition heart_attack : Concept :=
  mkConcept (lit "A1") SNOMED_URI (lit "Heart attack")
            (Some [ syn_designation "Cardiac arrest ";
                    fsn_designation "Myocardial infarction (disorder)" ]).

Definition flu : Concept :=
  mkConcept (lit "B2") (lit "other") (lit "Flu") None.

(** A server holding 250 copies of [flu]: every response reports the
    total, and carries the window the request asks for. *)
Definition sample_server (r : Request) : Expansion :=
  mkExpansion 250
    (replicate (Z.to_nat (Z.max 0 (Z.min (p_count r) (250 - p_offset r))))
               flu).

(** A SNOMED concept with two fully specified names of different types. *)
Definition two_fsn : Concept :=
  mkConcept (lit "A1") SNOMED_URI (lit "Heart attack")
            (Some [ fsn_designation "Myocardial infarction (disorder)";
                    fsn_designation "Heart attack (finding)" ]).

(** A SNOMED concept whose fully specified name ends in no vocabulary
    entry. *)
Definition unknown_fsn : Concept :=
  mkConcept (lit "A1") SNOMED_URI (lit "Heart attack")
            (Some [ fsn_designation "Myocardial infarction (unknown)" ]).

(** A SNOMED concept whose fully specified name has the type glued to the
    name, with no blank before the parenthesis. *)
Definition glued_fsn : Concept :=
  mkConcept (lit "A1") SNOMED_URI (lit "Heart attack")
            (Some [ fsn_designation "Myocardial infarction(disorder)" ]).

(** A concept with one designation from another [use] system. *)
Definition other_use : Concept :=
  mkConcept (lit "B2") (lit "other") (lit "Flu")
            (Some [ mkDesignation (lit "http://example.org/use")
                                  SYNONYM_CODE (lit "Grippe") ]).

(** ** Notions used in the statements *)

(** The synonym the iteration on [d] adds to the set, on a concept of code
    system [sys]; [None] when it adds none.  [designation_step_synonyms]
    below ties it to [designation_step]. *)
Definition contribution (sys : str) (d : Designation) : option str :=
  if bool_decide (use_system d = SNOMED_URI) then
    if bool_decide (use_code d = SYNONYM_CODE) then Some (strip (value d))
    else if bool_decide (use_code d = FSN_CODE) then
      if bool_decide (sys = SNOMED_URI) then
        match matching_type (value d) SNOMED_SEMANTIC_TYPES with
        | Some T => Some (strip (drop_last (length T + 2) (value d)))
        | None => None
        end
      else Some (strip (value d))
    else None
  else None.

(** A string [strip] leaves alone: no blank at either end. *)
Definition trimmed (s : str) : Prop := strip s = s.

(** The files [main] writes into an empty destination directory, in the
    order it writes them. *)
Definition flag_files (opts : Opts) : list (str * Entry) :=
  (if normalize_unicode opts
   then [(path_join (destination_path opts) (lit "normalize-unicode.flag"),
          File [])]
   else [])
  ++ (if lowercase opts
      then [(path_join (destination_path opts) (lit "lowercase.flag"),
             File [])]
      else [])
  ++ [ (path_join (destination_path opts) (lit "language.flag"),
        File (language opts));
       (path_join (destination_path opts) (lit "database_backend.flag"),
        File (database_backend opts)) ].

(** The two store directories, as entries of the destination. *)
Definition store_dirs (opts : Opts) : list (str * Entry) :=
  [ (path_join (destination_path opts) (lit "umls-simstring.db"), Directory);
    (path_join (destination_path opts) (lit "cui-semtypes.db"), Directory) ].

(** Stand-ins for the two formatted texts. *)
Definition sample_record_line (r : ExtractedRecord) : str :=
  term r ++ lit " " ++ cui r.

Definition sample_status_line (_ : Z) : str := lit "COMPLETED".

(** The two prompts of [main]. *)
Definition create_prompt (opts : Opts) : str :=
  lit "Directory " ++ [34%N] ++ destination_path opts ++ [34%N]
  ++ lit " does not exists; should I create it? [y/N] ".

Definition empty_prompt (opts : Opts) : str :=
  lit "Directory " ++ [34%N] ++ destination_path opts ++ [34%N]
  ++ lit " is not empty; should I empty it? [y/N] ".

(** A non-SNOMED concept with a synonym, a fully specified name and a
    designation with an unused [use] code. *)
Definition icd_flu : Concept :=
  mkConcept (lit "J11") (lit "http://hl7.org/fhir/sid/icd-10") (lit " Flu ")
            (Some [ syn_designation " Influenza";
                    fsn_designation "Influenza (disorder)";
                    mkDesignation SNOMED_URI (lit "900000000000550004")
                                  (lit "An acute viral infection") ]).

(** What one response contributes to the stream: the items yielded for
    the concepts it carries, in order. *)
Definition page {A} (server : Request -> Expansion)
  (per_concept : Concept -> Opts -> list A) (opts : Opts) (r : Request)
  : list A :=
  flat_map (fun concept => per_concept concept opts) (contains (server r)).

(** The requests [extract_from_fhir] sends when the first response
    reports [total]: one per 100 concepts, and one in any case. *)
Definition expected_requests (opts : Opts) (total : Z) : list Request :=
  map (fun j => request_for opts 100 (100 * Z.of_nat j))
      (seq 0 (Z.to_nat (Z.max 1 ((total + 99) / 100)))).

(** A server that reports no concept at all and still delivers one. *)
Definition stale_server (_ : Request) : Expansion := mkExpansion 0 [flu].

(** Closed decidable statements are settled by running their decision
    procedure. *)
Ltac by_evaluation :=
  match goal with
  | |- ?P => apply (bool_decide_unpack P); vm_compute; exact I
  end.

(** * Facts about the string operations *)

Lemma elem_of_map {A B} (f : A -> B) (l : list A) (y : B) :
  y ∈ map f l ↔ ∃ x, y = f x ∧ x ∈ l.
Proof.
  rewrite list_elem_of_In, in_map_iff. split.
  - intros (x & <- & Hx). exists x. by rewrite list_elem_of_In.
  - intros (x & -> & Hx). exists x. by rewrite <- list_elem_of_In.
Qed.

Lemma endswith_true (s suf : str) :
  endswith s suf = true ↔ ∃ a, s = a ++ suf.
Proof. unfold endswith. by rewrite bool_decide_eq_true. Qed.

Lemma endswith_false (s suf : str) :
  endswith s suf = false ↔ ¬ ∃ a, s = a ++ suf.
Proof. unfold endswith. by rewrite bool_decide_eq_false. Qed.

Lemma lstrip_snoc_space (a : str) (c : N) :
  is_space c = true ->
  lstrip (a ++ [c]) = match lstrip a with [] => [] | _ => lstrip a ++ [c] end.
Proof.
  intros Hc. induction a as [|x a IH]; simpl.
  - by rewrite Hc.
  - destruct (is_space x); [exact IH | reflexivity].
Qed.

(** A trailing blank does not survive [strip]. *)
Lemma strip_snoc_space (a : str) (c : N) :
  is_space c = true -> strip (a ++ [c]) = strip a.
Proof.
  intros Hc. unfold strip, rstrip. rewrite (lstrip_snoc_space _ _ Hc).
  destruct (lstrip a) as [|y l] eqn:E; [reflexivity|].
  rewrite rev_app_distr. simpl rev at 2. simpl app at 1.
  cbn [lstrip]. by rewrite Hc.
Qed.

Lemma drop_last_app (a suf : str) :
  drop_last (length suf) (a ++ suf) = a.
Proof.
  unfold drop_last. rewrite length_app.
  replace (length a + length suf - length suf)%nat with (length a) by lia.
  by rewrite take_app_length.
Qed.

(** Two occurrences of a separator, each followed by a tail free of it,
    are the same occurrence. *)
Lemma app_cons_unique {A} (x : A) (a b u v : list A) :
  a ++ x :: u = b ++ x :: v -> x ∉ u -> x ∉ v -> u = v.
Proof.
  revert b. induction a as [|y a IH]; intros [|z b] Heq Hu Hv; simpl in Heq.
  - congruence.
  - injection Heq as -> ->. exfalso. apply Hu. set_solver.
  - injection Heq as -> <-. exfalso. apply Hv. set_solver.
  - injection Heq as -> Heq. eauto.
Qed.

Lemma paren_suffix_unique (v t1 t2 : str) :
  40%N ∉ t1 -> 40%N ∉ t2 ->
  endswith v (lit "(" ++ t1 ++ lit ")") = true ->
  endswith v (lit "(" ++ t2 ++ lit ")") = true ->
  t1 = t2.
Proof.
  intros H1 H2 [a Ha]%endswith_true [b Hb]%endswith_true.
  change (lit "(") with [40%N] in *. change (lit ")") with [41%N] in *.
  rewrite Ha in Hb.
  replace (a ++ [40%N] ++ t1 ++ [41%N]) with ((a ++ 40%N :: t1) ++ [41%N])
    in Hb by (by rewrite <- app_assoc).
  replace (b ++ [40%N] ++ t2 ++ [41%N]) with ((b ++ 40%N :: t2) ++ [41%N])
    in Hb by (by rewrite <- app_assoc).
  apply app_inj_tail in Hb as [Hb _].
  by apply (app_cons_unique _ _ _ _ _ Hb).
Qed.

Lemma spaced_suffix_endswith (a T : str) :
  endswith (a ++ lit " (" ++ T ++ lit ")") (lit "(" ++ T ++ lit ")") = true.
Proof.
  apply endswith_true. exists (a ++ [32%N]).
  change (lit " (") with ([32%N] ++ lit "("). by rewrite <- !app_assoc.
Qed.

(** * Facts about the vocabulary *)

Lemma vocabulary_no_open_paren :
  Forall (fun t : str => 40%N ∉ t) SNOMED_SEMANTIC_TYPES.
Proof.
  apply (bool_decide_unpack (Forall (fun t : str => 40%N ∉ t)
                                    SNOMED_SEMANTIC_TYPES)).
  vm_compute. exact I.
Qed.

Lemma vocabulary_no_paren (t : str) :
  t ∈ SNOMED_SEMANTIC_TYPES -> 40%N ∉ t.
Proof.
  intros Ht. by apply (proj1 (Forall_forall _ _) vocabulary_no_open_paren).
Qed.

Lemma scan_types_spec (v : str) (types : list str) (st : ConceptState) :
  scan_types v types st =
  match matching_type v types with
  | Some T => ({[ strip (drop_last (length T + 2) v) ]} ∪ st.1, T)
  | None => st
  end.
Proof.
  induction types as [|t types IH]; cbn [scan_types matching_type];
    [reflexivity|].
  by destruct (endswith _ _).
Qed.

Lemma matching_type_Some (v : str) (types : list str) (T : str) :
  matching_type v types = Some T ->
  T ∈ types ∧ endswith v (lit "(" ++ T ++ lit ")") = true.
Proof.
  induction types as [|t types IH]; cbn [matching_type]; [discriminate|].
  destruct (endswith v (lit "(" ++ t ++ lit ")")) eqn:E.
  - intros Ht. simplify_eq. split; [apply elem_of_cons; by left | exact E].
  - intros H. destruct (IH H). split; [apply elem_of_cons; by right | done].
Qed.

Lemma matching_type_None (v : str) (types : list str) :
  matching_type v types = None ↔
  ∀ t, t ∈ types -> endswith v (lit "(" ++ t ++ lit ")") = false.
Proof.
  induction types as [|t types IH]; cbn [matching_type].
  - split; [intros _ t Ht; by apply elem_of_nil in Ht | done].
  - destruct (endswith v (lit "(" ++ t ++ lit ")")) eqn:E.
    + split; [discriminate|]. intros H. specialize (H t). rewrite E in H.
      discriminate H. apply elem_of_cons; by left.
    + rewrite IH. split.
      * intros H t' [->|Ht']%elem_of_cons; auto.
      * intros H t' Ht'. apply H. apply elem_of_cons; by right.
Qed.

(** On the vocabulary of the module the match is unique, so a value that
    ends in ["(T)"] for an entry [T] recovers exactly [T]. *)
Lemma matching_type_vocabulary (v T : str) :
  T ∈ SNOMED_SEMANTIC_TYPES ->
  endswith v (lit "(" ++ T ++ lit ")") = true ->
  matching_type v SNOMED_SEMANTIC_TYPES = Some T.
Proof.
  intros HT Hv.
  destruct (matching_type v SNOMED_SEMANTIC_TYPES) as [T'|] eqn:E.
  - apply matching_type_Some in E as [HT' Hv']. f_equal.
    eapply paren_suffix_unique; eauto using vocabulary_no_paren.
  - rewrite matching_type_None in E. rewrite (E T HT) in Hv. discriminate.
Qed.

(** * Facts about [process_concept] *)

Lemma codes_differ : SYNONYM_CODE ≠ FSN_CODE.
Proof. by_evaluation. Qed.

(** On a SNOMED concept an iteration assigns [semantic_type] exactly when
    the designation recovers a type. *)
Lemma designation_step_type (st : ConceptState) (d : Designation) :
  (designation_step SNOMED_URI st d).2 = default st.2 (recovered_type d).
Proof.
  unfold designation_step, recovered_type.
  destruct (decide (use_system d = SNOMED_URI)) as [Hs|Hs].
  2: { by rewrite !(bool_decide_eq_false_2 _ Hs). }
  rewrite !(bool_decide_eq_true_2 _ Hs).
  destruct (decide (use_code d = SYNONYM_CODE)) as [Hc|Hc].
  { rewrite (bool_decide_eq_true_2 _ Hc).
    rewrite bool_decide_eq_false_2; [done|].
    rewrite Hc. apply codes_differ. }
  rewrite (bool_decide_eq_false_2 _ Hc).
  destruct (decide (use_code d = FSN_CODE)) as [Hf|Hf].
  2: { by rewrite !(bool_decide_eq_false_2 _ Hf). }
  rewrite !(bool_decide_eq_true_2 _ Hf).
  rewrite (bool_decide_eq_true_2 (SNOMED_URI = SNOMED_URI)) by done.
  rewrite scan_types_spec. cbn [andb].
  by destruct (matching_type _ _).
Qed.

(** The synonym set only grows. *)
Lemma designation_step_mono (sys : str) (st : ConceptState) (d : Designation) :
  st.1 ⊆ (designation_step sys st d).1.
Proof.
  unfold designation_step.
  repeat case_bool_decide; try rewrite scan_types_spec;
    try destruct (matching_type _ _); cbn [fst]; set_solver.
Qed.

Lemma foldl_step_mono (sys : str) (ds : list Designation) (st : ConceptState) :
  st.1 ⊆ (foldl (designation_step sys) st ds).1.
Proof.
  revert st. induction ds as [|d ds IH]; intros st; cbn [foldl]; [done|].
  etrans; [apply (designation_step_mono sys st d) | apply IH].
Qed.

Lemma last_cons_default {A} (x y : A) (l : list A) :
  default x (last (y :: l)) = default y (last l).
Proof.
  revert x y. induction l as [|z l IH]; intros x y; [done|].
  change (last (y :: z :: l)) with (last (z :: l)).
  by rewrite (IH x z), (IH y z).
Qed.

(** After the loop [semantic_type] is the type of the last designation
    that recovers one, or still its initial value. *)
Lemma foldl_step_type (ds : list Designation) (st : ConceptState) :
  (foldl (designation_step SNOMED_URI) st ds).2
  = default st.2 (last (omap recovered_type ds)).
Proof.
  revert st. induction ds as [|d ds IH]; intros st; cbn [foldl]; [done|].
  rewrite IH, designation_step_type. cbn [omap list_omap].
  destruct (recovered_type d) as [T|]; cbn [default]; [|done].
  by rewrite last_cons_default.
Qed.

(** A designation whose iteration changes nothing can be removed from the
    sequence. *)
Lemma foldl_step_skip (sys : str) (l1 l2 : list Designation) (d : Designation)
  (st : ConceptState) :
  (∀ st', designation_step sys st' d = st') ->
  foldl (designation_step sys) st (l1 ++ d :: l2)
  = foldl (designation_step sys) st (l1 ++ l2).
Proof. intros H. rewrite !foldl_app. cbn [foldl]. by rewrite H. Qed.

Lemma designation_step_other_use (sys : str) (st : ConceptState)
  (d : Designation) :
  use_system d ≠ SNOMED_URI -> designation_step sys st d = st.
Proof. intros H. unfold designation_step. by rewrite bool_decide_eq_false_2. Qed.

Lemma designation_step_unmatched_fsn (st : ConceptState) (d : Designation) :
  use_system d = SNOMED_URI -> use_code d = FSN_CODE ->
  matching_type (value d) SNOMED_SEMANTIC_TYPES = None ->
  designation_step SNOMED_URI st d = st.
Proof.
  intros Hs Hc Hm. unfold designation_step.
  rewrite (bool_decide_eq_true_2 _ Hs).
  rewrite bool_decide_eq_false_2 by (rewrite Hc; intros E; by apply codes_differ).
  rewrite (bool_decide_eq_true_2 _ Hc).
  rewrite (bool_decide_eq_true_2 (SNOMED_URI = SNOMED_URI)) by done.
  by rewrite scan_types_spec, Hm.
Qed.

Section ProcessConcept.

Variable lower : str -> str.
Variable unidecode : str -> str.

Lemma elem_of_process_concept (c : Concept) (opts : Opts)
  (r : ExtractedRecord) :
  r ∈ process_concept lower unidecode c opts ↔
  ∃ s, s ∈ (concept_state c opts).1
       ∧ r = emit lower unidecode c opts (concept_state c opts).2 s.
Proof.
  unfold process_concept. rewrite elem_of_map.
  split; intros (s & Hr & Hs); exists s; split; try done;
    by apply elem_of_elements.
Qed.

(** Every record of a concept carries the final [semantic_type]. *)
Lemma process_concept_stys (c : Concept) (opts : Opts) (r : ExtractedRecord) :
  r ∈ process_concept lower unidecode c opts ->
  stys r = [(concept_state c opts).2].
Proof. rewrite elem_of_process_concept. by intros (s & _ & ->). Qed.

(** Every member of the final synonym set is emitted, normalized. *)
Lemma process_concept_term (c : Concept) (opts : Opts) (s : str) :
  s ∈ (concept_state c opts).1 ->
  normalize lower unidecode s (lowercase opts) (normalize_unicode opts)
  ∈ map term (process_concept lower unidecode c opts).
Proof.
  intros Hs. apply elem_of_map.
  exists (emit lower unidecode c opts (concept_state c opts).2 s).
  split; [done|]. apply elem_of_process_concept. eauto.
Qed.

(** What the code computes for the flag: the emitted (normalized) term
    is compared with the trimmed display. *)
Lemma process_concept_preferred (c : Concept) (opts : Opts)
  (r : ExtractedRecord) :
  r ∈ process_concept lower unidecode c opts ->
  preferred r = bool_decide (term r = strip (display c)).
Proof. rewrite elem_of_process_concept. by intros (s & _ & ->). Qed.

Lemma process_concept_skip (c : Concept) (opts : Opts)
  (l1 l2 : list Designation) (d : Designation) :
  designation c = Some (l1 ++ d :: l2) ->
  (∀ st, designation_step (system c) st d = st) ->
  process_concept lower unidecode c opts
  = process_concept lower unidecode
      (mkConcept (code c) (system c) (display c) (Some (l1 ++ l2))) opts.
Proof.
  intros Hd Hskip. unfold process_concept, concept_state, emit.
  cbn [designation system display code]. rewrite Hd.
  by rewrite foldl_step_skip.
Qed.

End ProcessConcept.

Lemma normalize_flags_off (lower unidecode : str -> str) (s : str) :
  normalize lower unidecode s false false = s.
Proof. reflexivity. Qed.

Lemma ascii_lower_idempotent (s : str) :
  ascii_lower (ascii_lower s) = ascii_lower s.
Proof.
  unfold ascii_lower. rewrite map_map. apply map_ext. intros c.
  destruct ((65 <=? c) && (c <=? 90))%N eqn:E; [|by rewrite E].
  apply andb_true_iff in E as [E1%N.leb_le E2%N.leb_le].
  replace ((65 <=? c + 32) && (c + 32 <=? 90))%N with false; [done|].
  symmetry. apply andb_false_iff. right. apply N.leb_gt. lia.
Qed.

Lemma unidecode_char_ascii (c : N) :
  Forall (fun c' => (c' <? 128)%N = true) (unidecode_char c).
Proof.
  unfold unidecode_char. destruct (c <? 128)%N eqn:E; [by repeat constructor|].
  destruct (c =? 233)%N; [by_evaluation|].
  destruct (c =? 21271)%N; [by_evaluation | constructor].
Qed.

Lemma sample_unidecode_ascii (s : str) :
  Forall (fun c => (c <? 128)%N = true) s -> sample_unidecode s = s.
Proof.
  unfold sample_unidecode. induction 1 as [|c s Hc _ IH]; [done|].
  cbn [flat_map]. rewrite IH. unfold unidecode_char. by rewrite Hc.
Qed.

Lemma sample_unidecode_idempotent (s : str) :
  sample_unidecode (sample_unidecode s) = sample_unidecode s.
Proof.
  apply sample_unidecode_ascii. unfold sample_unidecode.
  induction s as [|c s IH]; cbn [flat_map]; [constructor|].
  apply Forall_app. split; [apply unidecode_char_ascii | exact IH].
Qed.

(** * The preferred flag and the records of a concept without designations *)

(** C1.  The flag is meant to mark the record of the trimmed display.  The
    code compares the already normalized term with the display as it was
    trimmed, so with [lowercase] set the only record of the concept
    [Flu] has term [flu] and is not flagged. *)
Theorem C1_flag_lost_under_lowercase :
  process_concept ascii_lower sample_unidecode flu (sample_opts true false)
  = [ mkRecord (lit "flu") (lit "B2") [lit "UNKNOWN"] false ]
  ∧ (concept_state flu (sample_opts true false)).1 = {[ strip (display flu) ]}.
Proof. split; [by vm_compute | reflexivity]. Qed.

(** C7, the claim as stated fails: with [lowercase] set the one record of
    [Flu] has neither the trimmed display as its term nor the flag. *)
Lemma C7_counterexample :
  designation flu = None
  ∧ ¬ ∃ r, process_concept ascii_lower sample_unidecode flu
             (sample_opts true false) = [r]
           ∧ term r = strip (display flu) ∧ preferred r = true.
Proof.
  split; [reflexivity|]. intros (r & Hr & Ht & _).
  vm_compute in Hr. injection Hr as <-. vm_compute in Ht. discriminate Ht.
Qed.

(** C7, amended.  A concept without the [designation] key yields exactly
    one record; its term is the trimmed display after normalization, and
    with both flags off it is the trimmed display itself, flagged as
    preferred. *)
Theorem C7_single_record (lower unidecode : str -> str) (c : Concept)
  (opts : Opts) :
  designation c = None ->
  ∃ r, process_concept lower unidecode c opts = [r]
       ∧ cui r = code c
       ∧ stys r = [semantic opts]
       ∧ term r = normalize lower unidecode (strip (display c))
                            (lowercase opts) (normalize_unicode opts)
       ∧ (lowercase opts = false -> normalize_unicode opts = false ->
          term r = strip (display c) ∧ preferred r = true).
Proof.
  intros Hd. unfold process_concept, concept_state. rewrite Hd. cbn [fst snd].
  rewrite elements_singleton. cbn [map]. eexists. split; [reflexivity|].
  unfold emit. cbn [cui stys term preferred].
  split; [done|]. split; [done|]. split; [done|].
  intros -> ->. by rewrite normalize_flags_off, bool_decide_eq_true_2.
Qed.

Lemma C7_single_record_witness :
  designation flu = None
  ∧ ∃ r, process_concept ascii_lower sample_unidecode flu
           (sample_opts false false) = [r]
       ∧ cui r = code flu
       ∧ stys r = [semantic (sample_opts false false)]
       ∧ term r = normalize ascii_lower sample_unidecode (strip (display flu))
                            false false
       ∧ (false = false -> false = false ->
          term r = strip (display flu) ∧ preferred r = true).
Proof.
  split; [reflexivity|].
  apply (C7_single_record ascii_lower sample_unidecode flu
                          (sample_opts false false)).
  reflexivity.
Defined.

(** * Normalization *)

(** C8, the claim as stated fails.  Both sample collaborators are
    idempotent, yet with both flags set a second pass changes the result:
    U+5317 is left alone by [lower], transliterated to [Bei ], and lowered
    to [bei ] by the second pass. *)
Lemma C8_counterexample :
  (∀ s, ascii_lower (ascii_lower s) = ascii_lower s)
  ∧ (∀ s, sample_unidecode (sample_unidecode s) = sample_unidecode s)
  ∧ normalize ascii_lower sample_unidecode [21271%N] true true = lit "Bei "
  ∧ normalize ascii_lower sample_unidecode
      (normalize ascii_lower sample_unidecode [21271%N] true true) true true
    = lit "bei "
  ∧ normalize ascii_lower sample_unidecode
      (normalize ascii_lower sample_unidecode [21271%N] true true) true true
    ≠ normalize ascii_lower sample_unidecode [21271%N] true true.
Proof.
  split; [exact ascii_lower_idempotent|].
  split; [exact sample_unidecode_idempotent|].
  split; [reflexivity|]. split; [reflexivity|]. by_evaluation.
Qed.

(** C8, amended.  With [lower] and [unidecode] each idempotent,
    normalizing twice with the same flags is normalizing once whenever at
    most one flag is set, and with both flags set whenever lowering leaves
    the transliteration of the lowered string unchanged. *)
Theorem C8_normalize_idempotent (lower unidecode : str -> str) (s : str)
  (L U : bool) :
  (∀ x, lower (lower x) = lower x) ->
  (∀ x, unidecode (unidecode x) = unidecode x) ->
  (L = true -> U = true -> lower (unidecode (lower s)) = unidecode (lower s)) ->
  normalize lower unidecode (normalize lower unidecode s L U) L U
  = normalize lower unidecode s L U.
Proof.
  intros Hl Hu Hlu. unfold normalize. destruct L, U; try done.
  by rewrite Hlu, Hu.
Qed.

Lemma C8_normalize_idempotent_witness :
  (∀ x, ascii_lower (ascii_lower x) = ascii_lower x)
  ∧ (∀ x, sample_unidecode (sample_unidecode x) = sample_unidecode x)
  ∧ (true = true -> true = true ->
     ascii_lower (sample_unidecode (ascii_lower (lit "Caf" ++ [233%N])))
     = sample_unidecode (ascii_lower (lit "Caf" ++ [233%N])))
  ∧ normalize ascii_lower sample_unidecode
      (normalize ascii_lower sample_unidecode (lit "Caf" ++ [233%N]) true true)
      true true
    = normalize ascii_lower sample_unidecode (lit "Caf" ++ [233%N]) true true.
Proof.
  split; [exact ascii_lower_idempotent|].
  split; [exact sample_unidecode_idempotent|].
  split; [reflexivity|].
  apply (C8_normalize_idempotent ascii_lower sample_unidecode
           (lit "Caf" ++ [233%N]) true true).
  - exact ascii_lower_idempotent.
  - exact sample_unidecode_idempotent.
  - reflexivity.
Defined.

(** * Designations that leave no trace *)

(** C2, the claim as stated fails twice.  A fully specified name ending in
    no vocabulary entry adds nothing: the only record of [unknown_fsn] is
    the one of the display, and the raw value is no term.  And a value
    that ends in no [" (T)"] may still end in ["(T)"], which the code
    accepts: [glued_fsn] gets the type [disorder], not the default. *)
Lemma C2_counterexample :
  (let d := fsn_designation "Myocardial infarction (unknown)" in
   system unknown_fsn = SNOMED_URI
   ∧ designation unknown_fsn = Some [d]
   ∧ use_system d = SNOMED_URI ∧ use_code d = FSN_CODE
   ∧ Forall (fun T => endswith (value d) (lit " (" ++ T ++ lit ")") = false)
            SNOMED_SEMANTIC_TYPES
   ∧ value d ∉ map term (process_concept ascii_lower sample_unidecode
                           unknown_fsn (sample_opts false false)))
  ∧ (let d := fsn_designation "Myocardial infarction(disorder)" in
     system glued_fsn = SNOMED_URI
     ∧ designation glued_fsn = Some [d]
     ∧ use_system d = SNOMED_URI ∧ use_code d = FSN_CODE
     ∧ Forall (fun T => endswith (value d) (lit " (" ++ T ++ lit ")") = false)
              SNOMED_SEMANTIC_TYPES
     ∧ ¬ Forall (fun r => stys r = [semantic (sample_opts false false)])
           (process_concept ascii_lower sample_unidecode glued_fsn
                            (sample_opts false false))).
Proof.
  split; cbv zeta; (repeat (split; [reflexivity|]));
    (split; [by_evaluation|]); by_evaluation.
Qed.

(** C2, amended.  On a SNOMED concept a fully specified name whose value
    ends in ["(T)"] for no vocabulary entry [T] is passed over: it changes
    neither the semantic type nor the synonym set, and the records are
    those of the concept without that designation. *)
Theorem C2_unmatched_fsn_ignored (lower unidecode : str -> str) (c : Concept)
  (opts : Opts) (l1 l2 : list Designation) (d : Designation) :
  system c = SNOMED_URI ->
  designation c = Some (l1 ++ d :: l2) ->
  use_system d = SNOMED_URI -> use_code d = FSN_CODE ->
  (∀ T, T ∈ SNOMED_SEMANTIC_TYPES ->
        endswith (value d) (lit "(" ++ T ++ lit ")") = false) ->
  (∀ st, designation_step (system c) st d = st)
  ∧ process_concept lower unidecode c opts
    = process_concept lower unidecode
        (mkConcept (code c) (system c) (display c) (Some (l1 ++ l2))) opts.
Proof.
  intros Hsys Hd Hs Hc Hnone.
  assert (∀ st, designation_step (system c) st d = st) as Hskip.
  { intros st. rewrite Hsys.
    apply designation_step_unmatched_fsn; try done.
    by apply matching_type_None. }
  split; [exact Hskip|]. by apply process_concept_skip with d.
Qed.

Lemma C2_unmatched_fsn_ignored_witness :
  let d := fsn_designation "Myocardial infarction (unknown)" in
  (∀ st, designation_step (system unknown_fsn) st d = st)
  ∧ process_concept ascii_lower sample_unidecode unknown_fsn
      (sample_opts false false)
    = process_concept ascii_lower sample_unidecode
        (mkConcept (code unknown_fsn) (system unknown_fsn)
                   (display unknown_fsn) (Some ([] ++ [])))
        (sample_opts false false).
Proof.
  apply (C2_unmatched_fsn_ignored ascii_lower sample_unidecode unknown_fsn
           (sample_opts false false) [] []
           (fsn_designation "Myocardial infarction (unknown)")).
  - reflexivity.
  - reflexivity.
  - reflexivity.
  - reflexivity.
  - apply (proj1 (Forall_forall _ _)). by_evaluation.
Defined.

(** C3, the claim as stated fails: the designation [Grippe], from another
    [use] system, gives no record; the only term of [other_use] is
    [Flu]. *)
Lemma C3_counterexample :
  let d := mkDesignation (lit "http://example.org/use") SYNONYM_CODE
                         (lit "Grippe") in
  designation other_use = Some [d]
  ∧ use_system d ≠ SNOMED_URI
  ∧ (strip (value d) ∉ map term (process_concept ascii_lower sample_unidecode
                                   other_use (sample_opts false false)))
  ∧ map term (process_concept ascii_lower sample_unidecode other_use
                              (sample_opts false false)) = [lit "Flu"].
Proof.
  cbv zeta. split; [reflexivity|]. split; [by_evaluation|].
  split; [by_evaluation | by vm_compute].
Qed.

(** C3, amended.  A designation whose [use] system is not the SNOMED URI
    is passed over, whatever its [use] code: it changes neither the
    synonym set nor the semantic type, and the records are those of the
    concept without that designation. *)
Theorem C3_other_use_system_ignored (lower unidecode : str -> str)
  (c : Concept) (opts : Opts) (l1 l2 : list Designation) (d : Designation) :
  designation c = Some (l1 ++ d :: l2) ->
  use_system d ≠ SNOMED_URI ->
  (∀ st, designation_step (system c) st d = st)
  ∧ process_concept lower unidecode c opts
    = process_concept lower unidecode
        (mkConcept (code c) (system c) (display c) (Some (l1 ++ l2))) opts.
Proof.
  intros Hd Hs.
  assert (∀ st, designation_step (system c) st d = st) as Hskip
    by (intros st; by apply designation_step_other_use).
  split; [exact Hskip|]. by apply process_concept_skip with d.
Qed.

Lemma C3_other_use_system_ignored_witness :
  let d := mkDesignation (lit "http://example.org/use") SYNONYM_CODE
                         (lit "Grippe") in
  (∀ st, designation_step (system other_use) st d = st)
  ∧ process_concept ascii_lower sample_unidecode other_use
      (sample_opts false false)
    = process_concept ascii_lower sample_unidecode
        (mkConcept (code other_use) (system other_use) (display other_use)
                   (Some ([] ++ [])))
        (sample_opts false false).
Proof.
  apply (C3_other_use_system_ignored ascii_lower sample_unidecode other_use
           (sample_opts false false) [] []
           (mkDesignation (lit "http://example.org/use") SYNONYM_CODE
                          (lit "Grippe"))).
  - reflexivity.
  - by_evaluation.
Defined.

(** * Recovery of the semantic type *)

Lemma omap_all_None {A B} (f : A -> option B) (l : list A) :
  Forall (fun x => f x = None) l -> omap f l = [].
Proof.
  induction 1 as [|x l Hx _ IH]; [done|]. cbn [omap list_omap].
  by rewrite Hx.
Qed.

(** The iteration on a fully specified name [a ++ " (T)"], [T] in the
    vocabulary: the type becomes [T] and [a], trimmed, joins the
    synonyms. *)
Lemma designation_step_matched (st : ConceptState) (d : Designation)
  (a T : str) :
  use_system d = SNOMED_URI -> use_code d = FSN_CODE ->
  T ∈ SNOMED_SEMANTIC_TYPES ->
  value d = a ++ lit " (" ++ T ++ lit ")" ->
  recovered_type d = Some T
  ∧ designation_step SNOMED_URI st d = ({[ strip a ]} ∪ st.1, T).
Proof.
  intros Hs Hc HT Hv.
  assert (matching_type (value d) SNOMED_SEMANTIC_TYPES = Some T) as Hm.
  { apply matching_type_vocabulary; [done|]. rewrite Hv.
    apply spaced_suffix_endswith. }
  split.
  - unfold recovered_type.
    by rewrite (bool_decide_eq_true_2 _ Hs), (bool_decide_eq_true_2 _ Hc).
  - unfold designation_step.
    rewrite (bool_decide_eq_true_2 _ Hs).
    rewrite bool_decide_eq_false_2
      by (rewrite Hc; intros E; by apply codes_differ).
    rewrite (bool_decide_eq_true_2 _ Hc).
    rewrite (bool_decide_eq_true_2 (SNOMED_URI = SNOMED_URI)) by done.
    rewrite scan_types_spec, Hm, Hv.
    change (lit " (") with ([32%N] ++ lit "(").
    replace (a ++ ([32%N] ++ lit "(") ++ T ++ lit ")")
      with ((a ++ [32%N]) ++ (lit "(" ++ T ++ lit ")"))
      by (by rewrite <- !app_assoc).
    replace (length T + 2)%nat with (length (lit "(" ++ T ++ lit ")")).
    + by rewrite drop_last_app, (strip_snoc_space a 32).
    + rewrite !length_app. change (length (lit "(")) with 1%nat.
      change (length (lit ")")) with 1%nat. lia.
Qed.

(** C4, the claim as stated fails twice.  In [two_fsn] the name
    [Myocardial infarction (disorder)] is followed by a second fully
    specified name of type [finding], and no record carries [disorder].
    And with [lowercase] set the terms of [heart_attack] are lowered: the
    stripped name as written is not among them. *)
Lemma C4_counterexample :
  (let d := fsn_designation "Myocardial infarction (disorder)" in
   system two_fsn = SNOMED_URI
   ∧ (∃ l1 l2, designation two_fsn = Some (l1 ++ d :: l2))
   ∧ use_system d = SNOMED_URI ∧ use_code d = FSN_CODE
   ∧ lit "disorder" ∈ SNOMED_SEMANTIC_TYPES
   ∧ value d = lit "Myocardial infarction" ++ lit " (" ++ lit "disorder"
               ++ lit ")"
   ∧ ¬ Forall (fun r => stys r = [lit "disorder"])
         (process_concept ascii_lower sample_unidecode two_fsn
                          (sample_opts false false)))
  ∧ (let d := fsn_designation "Myocardial infarction (disorder)" in
     system heart_attack = SNOMED_URI
     ∧ (∃ l1 l2, designation heart_attack = Some (l1 ++ d :: l2))
     ∧ use_system d = SNOMED_URI ∧ use_code d = FSN_CODE
     ∧ lit "disorder" ∈ SNOMED_SEMANTIC_TYPES
     ∧ value d = lit "Myocardial infarction" ++ lit " (" ++ lit "disorder"
                 ++ lit ")"
     ∧ (strip (lit "Myocardial infarction")
        ∉ map term (process_concept ascii_lower sample_unidecode heart_attack
                                    (sample_opts true false)))).
Proof.
  split; cbv zeta.
  - split; [reflexivity|].
    split; [by exists [], [fsn_designation "Heart attack (finding)"]|].
    split; [reflexivity|]. split; [reflexivity|]. split; [by_evaluation|].
    split; [reflexivity | by_evaluation].
  - split; [reflexivity|].
    split; [by exists [syn_designation "Cardiac arrest "], []|].
    split; [reflexivity|]. split; [reflexivity|]. split; [by_evaluation|].
    split; [reflexivity | by_evaluation].
Qed.

(** C4, amended.  On a SNOMED concept, let [d] be a fully specified name
    whose value is [a ++ " (T)"] with [T] in the vocabulary, and let no
    later designation recover a type.  Then every record of the concept
    carries [T], and [a], trimmed and then normalized as the flags say, is
    among the terms; with both flags off that is the trimmed [a]
    itself. *)
Theorem C4_fsn_type_applies_to_all (lower unidecode : str -> str)
  (c : Concept) (opts : Opts) (l1 l2 : list Designation) (d : Designation)
  (a T : str) :
  system c = SNOMED_URI ->
  designation c = Some (l1 ++ d :: l2) ->
  use_system d = SNOMED_URI -> use_code d = FSN_CODE ->
  T ∈ SNOMED_SEMANTIC_TYPES ->
  value d = a ++ lit " (" ++ T ++ lit ")" ->
  Forall (fun d' => recovered_type d' = None) l2 ->
  (∀ r, r ∈ process_concept lower unidecode c opts -> stys r = [T])
  ∧ normalize lower unidecode (strip a) (lowercase opts)
                (normalize_unicode opts)
    ∈ map term (process_concept lower unidecode c opts)
  ∧ (lowercase opts = false -> normalize_unicode opts = false ->
     strip a ∈ map term (process_concept lower unidecode c opts)).
Proof.
  intros Hsys Hd Hs Hc HT Hv Hlast.
  assert (normalize lower unidecode (strip a) (lowercase opts)
                    (normalize_unicode opts)
          ∈ map term (process_concept lower unidecode c opts)) as Hterm.
  { apply process_concept_term. unfold concept_state. rewrite Hd, Hsys.
    rewrite foldl_app. cbn [foldl].
    apply (foldl_step_mono SNOMED_URI l2).
    rewrite (proj2 (designation_step_matched _ d a T Hs Hc HT Hv)).
    cbn [fst]. apply elem_of_union. left. by apply elem_of_singleton. }
  split; [|split; [exact Hterm|]].
  - intros r Hr. rewrite (process_concept_stys _ _ _ _ _ Hr). f_equal.
    unfold concept_state. rewrite Hd, Hsys, foldl_step_type.
    rewrite omap_app. cbn [omap list_omap].
    rewrite (proj1 (designation_step_matched (∅, T) d a T Hs Hc HT Hv)).
    rewrite (omap_all_None _ _ Hlast).
    by rewrite last_snoc.
  - intros HL HU. rewrite HL, HU in Hterm. exact Hterm.
Qed.

Lemma C4_fsn_type_applies_to_all_witness :
  (∀ r, r ∈ process_concept ascii_lower sample_unidecode heart_attack
              (sample_opts true false) -> stys r = [lit "disorder"])
  ∧ normalize ascii_lower sample_unidecode
      (strip (lit "Myocardial infarction")) true false
    ∈ map term (process_concept ascii_lower sample_unidecode heart_attack
                                (sample_opts true false))
  ∧ (true = false -> false = false ->
     strip (lit "Myocardial infarction")
     ∈ map term (process_concept ascii_lower sample_unidecode heart_attack
                                 (sample_opts true false))).
Proof.
  apply (C4_fsn_type_applies_to_all ascii_lower sample_unidecode heart_attack
           (sample_opts true false)
           [syn_designation "Cardiac arrest "] []
           (fsn_designation "Myocardial infarction (disorder)")
           (lit "Myocardial infarction") (lit "disorder")).
  - reflexivity.
  - reflexivity.
  - reflexivity.
  - reflexivity.
  - by_evaluation.
  - reflexivity.
  - constructor.
Defined.

(** C10.  On a SNOMED concept each designation that recovers a type
    overwrites [semantic_type], whatever it held.  So after the loop the
    type is the one recovered by the last such designation in designation
    order, not the first; the concept has a record, and every record
    carries that type.  The statement covers any number of such
    designations, two or more in particular. *)
Theorem C10_last_fsn_type_wins (lower unidecode : str -> str) (c : Concept)
  (opts : Opts) (ds : list Designation) (T : str) :
  system c = SNOMED_URI ->
  designation c = Some ds ->
  last (omap recovered_type ds) = Some T ->
  (∀ st d T', recovered_type d = Some T' ->
              (designation_step SNOMED_URI st d).2 = T')
  ∧ (concept_state c opts).2 = T
  ∧ (∃ r, r ∈ process_concept lower unidecode c opts)
  ∧ ∀ r, r ∈ process_concept lower unidecode c opts -> stys r = [T].
Proof.
  intros Hsys Hd Hlast.
  assert ((concept_state c opts).2 = T) as HT.
  { unfold concept_state. by rewrite Hd, Hsys, foldl_step_type, Hlast. }
  split; [|split; [exact HT|split]].
  - intros st d T' Hrec. by rewrite designation_step_type, Hrec.
  - exists (emit lower unidecode c opts (concept_state c opts).2
                 (strip (display c))).
    apply elem_of_process_concept. exists (strip (display c)).
    split; [|reflexivity]. unfold concept_state. rewrite Hd.
    apply (foldl_step_mono (system c) ds). cbn [fst].
    by apply elem_of_singleton.
  - intros r Hr. by rewrite (process_concept_stys _ _ _ _ _ Hr), HT.
Qed.

Lemma C10_last_fsn_type_wins_witness :
  omap recovered_type
       [ fsn_designation "Myocardial infarction (disorder)";
         fsn_designation "Heart attack (finding)" ]
  = [lit "disorder"; lit "finding"]
  ∧ (∀ st d T', recovered_type d = Some T' ->
                (designation_step SNOMED_URI st d).2 = T')
  ∧ (concept_state two_fsn (sample_opts false false)).2 = lit "finding"
  ∧ (∃ r, r ∈ process_concept ascii_lower sample_unidecode two_fsn
                (sample_opts false false))
  ∧ ∀ r, r ∈ process_concept ascii_lower sample_unidecode two_fsn
               (sample_opts false false) -> stys r = [lit "finding"].
Proof.
  split; [by vm_compute|].
  apply (C10_last_fsn_type_wins ascii_lower sample_unidecode two_fsn
           (sample_opts false false)
           [ fsn_designation "Myocardial infarction (disorder)";
             fsn_designation "Heart attack (finding)" ]
           (lit "finding")).
  - reflexivity.
  - reflexivity.
  - by vm_compute.
Defined.

(** * The paged retrieval *)

Section PaginatorFacts.

Variable server : Request -> Expansion.
Context {A : Type}.
Variable per_concept : Concept -> Opts -> list A.

Lemma more_pages_S (fuel : nat) (opts : Opts) (count offset nf : Z) :
  more_pages server per_concept (S fuel) opts count offset nf
  = if offset <? nf then
      match more_pages server per_concept fuel opts count (offset + count) nf
      with
      | Some rest =>
          Some (mkExtraction
                  (request_for opts count offset :: requests rest)
                  (flat_map (fun concept => per_concept concept opts)
                            (contains (server (request_for opts count offset)))
                   ++ yielded rest))
      | None => None
      end
    else Some (mkExtraction [] []).
Proof. reflexivity. Qed.

Lemma more_pages_done (fuel : nat) (opts : Opts) (count offset nf : Z) :
  nf <= offset ->
  more_pages server per_concept fuel opts count offset nf
  = Some (mkExtraction [] []).
Proof.
  intros H. apply Z.ltb_ge in H.
  destruct fuel; cbn [more_pages]; by rewrite H.
Qed.

(** The loop ends: with a positive page size, fuel for the distance to
    [number_found] is enough, and the offsets requested are the
    [offset + j * count] below [number_found]. *)
Lemma more_pages_terminates (fuel : nat) (opts : Opts)
  (count offset nf : Z) :
  0 < count ->
  (Z.to_nat (nf - offset) <= fuel)%nat ->
  ∃ ex, more_pages server per_concept fuel opts count offset nf = Some ex
        ∧ (∀ r, r ∈ requests ex -> p_count r = count)
        ∧ ∀ k, k ∈ map p_offset (requests ex)
               ↔ ∃ j, 0 <= j ∧ k = offset + j * count ∧ k < nf.
Proof.
  intros Hcount. revert offset.
  induction fuel as [|fuel IH]; intros offset Hfuel.
  - assert (nf <= offset) as Hle by lia.
    rewrite (more_pages_done _ _ _ _ _ Hle). eexists. split; [reflexivity|].
    cbn [requests map]. split; [intros r Hr; by apply elem_of_nil in Hr|].
    intros k. split; [intros Hk; by apply elem_of_nil in Hk|].
    intros (j & Hj & -> & Hlt). nia.
  - rewrite more_pages_S. destruct (offset <? nf) eqn:E.
    + apply Z.ltb_lt in E.
      destruct (IH (offset + count)) as (rest & -> & Hc & Hrest); [lia|].
      eexists. split; [reflexivity|]. cbn [requests map]. split.
      * intros r [->|Hr]%elem_of_cons; [reflexivity | by apply Hc].
      * intros k. rewrite elem_of_cons, Hrest. cbn [p_offset request_for].
        split.
        -- intros [->|(j & Hj & -> & Hlt)].
           ++ exists 0. lia.
           ++ exists (j + 1). split; [lia|]. split; [ring | lia].
        -- intros (j & Hj & -> & Hlt).
           destruct (decide (j = 0)) as [->|Hne]; [left; ring|].
           right. exists (j - 1). split; [lia|]. split; [ring | lia].
    + apply Z.ltb_ge in E. eexists. split; [reflexivity|].
      cbn [requests map]. split; [intros r Hr; by apply elem_of_nil in Hr|].
      intros k. split; [intros Hk; by apply elem_of_nil in Hk|].
      intros (j & Hj & -> & Hlt). nia.
Qed.

(** [extract_from_fhir] always runs to its end.  Its requests all ask
    for 100 concepts; the offsets are 0 and the multiples of 100 below
    the [total] of the first response. *)
Lemma extract_from_fhir_terminates (opts : Opts) :
  ∃ ex, extract_from_fhir server per_concept opts = Some ex
        ∧ (∀ r, r ∈ requests ex -> p_count r = 100)
        ∧ ∀ k, k ∈ map p_offset (requests ex)
               ↔ k = 0 ∨ ∃ j, 0 <= j ∧ k = 100 + j * 100
                              ∧ k < total (server (request_for opts 100 0)).
Proof.
  unfold extract_from_fhir.
  set (nf := total (server (request_for opts 100 0))).
  destruct (more_pages_terminates (Z.to_nat nf) opts 100 (0 + 100) nf)
    as (rest & -> & Hc & Hrest); [lia | lia|].
  eexists. split; [reflexivity|]. cbn [requests map]. split.
  - intros r [->|Hr]%elem_of_cons; [reflexivity | by apply Hc].
  - intros k. rewrite elem_of_cons, Hrest. cbn [p_offset request_for].
    reflexivity.
Qed.

End PaginatorFacts.

Lemma flat_map_raw_concept (opts : Opts) (l : list Concept) :
  flat_map (fun concept => raw_concept concept opts) l = l.
Proof. induction l as [|c l IH]; [done|]. cbn. by rewrite IH. Qed.

(** C5.  The generator always runs to its end.  Every request asks for
    100 concepts, the first one at offset 0, and after the request at
    offset [k] the one at [k + 100] is sent exactly when [k + 100] is
    below the [total] of the first response.  When that total is 250 the
    offsets requested are 0, 100 and 200, and when the three pages hold
    100, 100 and 50 concepts, 250 raw concepts come out of them.  The
    requests do not depend on what is yielded per concept. *)
Theorem C5_pagination (lower unidecode : str -> str)
  (server : Request -> Expansion) (opts : Opts) :
  ∃ ex raw,
    extract_from_fhir server (process_concept lower unidecode) opts = Some ex
    ∧ extract_from_fhir server raw_concept opts = Some raw
    ∧ requests raw = requests ex
    ∧ (∀ r, r ∈ requests ex -> p_count r = 100)
    ∧ 0 ∈ map p_offset (requests ex)
    ∧ (∀ k, k ∈ map p_offset (requests ex) ->
            (k + 100 ∈ map p_offset (requests ex)
             ↔ k + 100 < total (server (request_for opts 100 0))))
    ∧ (total (server (request_for opts 100 0)) = 250 ->
       map p_offset (requests ex) = [0; 100; 200]
       ∧ (length (contains (server (request_for opts 100 0))) = 100%nat ->
          length (contains (server (request_for opts 100 100))) = 100%nat ->
          length (contains (server (request_for opts 100 200))) = 50%nat ->
          length (yielded raw) = 250%nat)).
Proof.
  destruct (extract_from_fhir_terminates
              server (process_concept lower unidecode) opts)
    as (ex & Hex & Hcount & Hoff).
  destruct (extract_from_fhir_terminates server raw_concept opts)
    as (raw & Hraw & _ & _).
  exists ex, raw. split; [exact Hex|]. split; [exact Hraw|].
  assert (requests raw = requests ex
          ∧ (total (server (request_for opts 100 0)) = 250 ->
             map p_offset (requests ex) = [0; 100; 200]
             ∧ yielded raw
               = contains (server (request_for opts 100 0))
                 ++ contains (server (request_for opts 100 100))
                 ++ contains (server (request_for opts 100 200)))) as [Hreq H250].
  { clear Hcount Hoff. unfold extract_from_fhir in Hex, Hraw.
    destruct (more_pages_terminates
                server (process_concept lower unidecode)
                (Z.to_nat (total (server (request_for opts 100 0)))) opts 100
                (0 + 100) (total (server (request_for opts 100 0))))
      as (rest & Hrest & _ & Hk); [lia | lia|].
    destruct (more_pages_terminates
                server raw_concept
                (Z.to_nat (total (server (request_for opts 100 0)))) opts 100
                (0 + 100) (total (server (request_for opts 100 0))))
      as (rest' & Hrest' & _ & Hk'); [lia | lia|].
    rewrite Hrest in Hex. rewrite Hrest' in Hraw.
    injection Hex as <-. injection Hraw as <-. cbn [requests yielded].
    split.
    - f_equal. clear Hk Hk'.
      revert rest rest' Hrest Hrest'. generalize (0 + 100).
      induction (Z.to_nat (total (server (request_for opts 100 0))))
        as [|fuel IH]; intros offset rest rest'.
      + cbn [more_pages]. destruct (offset <? _); [discriminate|].
        by intros [= <-] [= <-].
      + rewrite !more_pages_S. destruct (offset <? _); [|by intros [= <-] [= <-]].
        destruct (more_pages server (process_concept _ _) fuel opts 100
                             (offset + 100) _) as [e|] eqn:E; [|discriminate].
        destruct (more_pages server raw_concept fuel opts 100
                             (offset + 100) _) as [e'|] eqn:E'; [|discriminate].
        intros [= <-] [= <-]. cbn [requests]. f_equal. by eapply IH.
    - intros Htotal. rewrite Htotal in Hrest, Hrest'.
      replace (Z.to_nat 250) with (S (S (Z.to_nat 248))) in Hrest, Hrest'
        by lia.
      do 2 rewrite more_pages_S in Hrest, Hrest'.
      rewrite more_pages_done in Hrest, Hrest' by lia.
      change (0 + 100 <? 250) with true in Hrest, Hrest'.
      change (0 + 100 + 100 <? 250) with true in Hrest, Hrest'.
      cbn [requests yielded] in Hrest, Hrest'.
      injection Hrest as <-. injection Hrest' as <-.
      cbn [requests yielded map p_offset request_for].
      rewrite !flat_map_raw_concept, app_nil_r. split; reflexivity. }
  split; [exact Hreq|]. split; [exact Hcount|].
  split; [apply Hoff; by left|]. split.
  - intros k Hk. rewrite Hoff. apply Hoff in Hk. split.
    + intros [H0|(j & Hj & _ & Hlt)]; [|exact Hlt].
      destruct Hk as [->|(j & Hj & -> & _)]; lia.
    + intros Hlt. right.
      destruct Hk as [->|(j & Hj & -> & _)].
      * exists 0. lia.
      * exists (j + 1). lia.
  - intros Htotal. destruct (H250 Htotal) as [Hoffs Hy].
    split; [exact Hoffs|]. intros H1 H2 H3.
    rewrite Hy, !length_app, H1, H2, H3. reflexivity.
Qed.

Lemma C5_pagination_witness :
  ∃ raw,
    extract_from_fhir sample_server raw_concept (sample_opts false false)
    = Some raw
    ∧ map p_offset (requests raw) = [0; 100; 200]
    ∧ length (yielded raw) = 250%nat.
Proof.
  destruct (C5_pagination ascii_lower sample_unidecode sample_server
                          (sample_opts false false))
    as (ex & raw & _ & Hraw & Hreq & _ & _ & _ & H250).
  exists raw. destruct H250 as [Hoffs Hlen]; [reflexivity|].
  split; [exact Hraw|]. rewrite Hreq. split; [exact Hoffs|].
  apply Hlen; reflexivity.
Defined.

(** * The two stores *)

Lemma index_record_cuisty (st : Stores) (r : ExtractedRecord) :
  cuisty_db (index_record st r) = cuisty_db st ++ [r].
Proof. unfold index_record. by case_bool_decide. Qed.

Lemma index_record_consistent (st : Stores) (r : ExtractedRecord) :
  stores_consistent st -> stores_consistent (index_record st r).
Proof.
  intros (Hset & Hnd & Hkeys). unfold index_record, stores_consistent.
  case_bool_decide as Hin; cbn [simstring_terms ss_db cuisty_db made_dirs].
  - split; [exact Hset|]. split; [exact Hnd|].
    intros t. rewrite map_app, elem_of_app, <- Hkeys. cbn [map].
    split; [by left|]. intros [Ht|Ht]; [done|].
    apply list_elem_of_singleton in Ht as ->. by apply Hset.
  - split; [|split].
    + intros t. rewrite elem_of_union, elem_of_singleton, elem_of_app,
        list_elem_of_singleton, Hset. tauto.
    + apply NoDup_app. split; [exact Hnd|]. split; [|apply NoDup_singleton].
      intros t Ht ->%list_elem_of_singleton. by apply Hin, Hset.
    + intros t. rewrite map_app, !elem_of_app, <- Hkeys. cbn [map].
      reflexivity.
Qed.

Lemma foldl_index_record (recs : list ExtractedRecord) (st : Stores) :
  stores_consistent st ->
  stores_consistent (foldl index_record st recs)
  ∧ cuisty_db (foldl index_record st recs) = cuisty_db st ++ recs.
Proof.
  revert st. induction recs as [|r recs IH]; intros st Hst; cbn [foldl].
  - by rewrite app_nil_r.
  - destruct (IH _ (index_record_consistent st r Hst)) as [Hc Hdb].
    split; [exact Hc|]. rewrite Hdb, index_record_cuisty.
    by rewrite <- app_assoc.
Qed.

(** C6.  When the record stream is consumed, a term has been inserted
    into the similarity index exactly when some key-value insertion has
    it as key; no term was inserted twice into the similarity index; and
    the key-value insertions are the records of the stream, one per
    record, in order. *)
Theorem C6_index_consistency (extracted_it : list ExtractedRecord)
  (simstring_dir cuisty_dir : str) :
  let st := parse_and_encode_ngrams extracted_it simstring_dir cuisty_dir in
  (∀ t, t ∈ ss_db st ↔ t ∈ map term (cuisty_db st))
  ∧ NoDup (ss_db st)
  ∧ cuisty_db st = extracted_it
  ∧ (∀ t, t ∈ simstring_terms st ↔ t ∈ ss_db st).
Proof.
  cbv zeta. unfold parse_and_encode_ngrams.
  destruct (foldl_index_record extracted_it
              (mkStores [simstring_dir; cuisty_dir] ∅ [] []))
    as [(Hset & Hnd & Hkeys) Hdb].
  - split; [|split]; cbn [simstring_terms ss_db cuisty_db map].
    + intros t. rewrite elem_of_nil. set_solver.
    + constructor.
    + done.
  - repeat split; try done; try apply Hkeys; try apply Hset.
Qed.

(** * The [unidecode] check of [main] *)

Lemma bind_returned {A B} (m : Prog A) (k : A -> Prog B) (w w' : World)
  (a : A) :
  m w = (Returned a, w') -> bind m k w = k a w'.
Proof. intros H. unfold bind. by rewrite H. Qed.

Lemma bind_not_returned {A B} (m : Prog A) (k : A -> Prog B) (w w' : World)
  (b : B) :
  bind m k w = (Returned b, w') ->
  ∃ a w1, m w = (Returned a, w1) ∧ k a w1 = (Returned b, w').
Proof.
  unfold bind. destruct (m w) as [[a|s|e] w1]; [eauto | discriminate..].
Qed.

(** C9.  With the flag [normalize_unicode] set and the name [unidecode]
    unbound, [main] never reaches its end: no request is sent and nothing
    is inserted into either store, whatever the destination directory and
    the answers typed.  On a destination directory that exists and is
    empty it writes the error message to the standard error stream and
    exits with status 1, before any flag file is written. *)
Theorem C9_unidecode_missing_is_fatal (lower : str -> str)
  (server : Request -> Expansion) (record_line : ExtractedRecord -> str)
  (status_line : Z -> str) (opts : Opts) (w : World) :
  normalize_unicode opts = true ->
  (∀ p w', main lower None server record_line status_line opts w
           ≠ (Returned p, w'))
  ∧ (dest w = Some [] ->
     main lower None server record_line status_line opts w
     = (Exited 1, mkWorld (Some []) (keyboard w) (stdout w)
                          (stderr w ++ [unidecode_error]))).
Proof.
  intros Hflag. split.
  - intros p w' Hmain. unfold main in Hmain. rewrite Hflag in Hmain.
    apply bind_not_returned in Hmain as (exists_ & w1 & _ & Hmain).
    apply bind_not_returned in Hmain as (u1 & w2 & _ & Hmain).
    apply bind_not_returned in Hmain as (entries & w3 & _ & Hmain).
    apply bind_not_returned in Hmain as (u2 & w4 & _ & Hmain).
    apply bind_not_returned in Hmain as (u3 & w5 & Hcheck & _).
    apply bind_not_returned in Hcheck as (u4 & w6 & Hcheck & _).
    apply bind_not_returned in Hcheck as (u5 & w7 & _ & Hexit).
    discriminate Hexit.
  - intros Hdest. unfold main. rewrite Hflag.
    destruct w as [d kb out err]. cbn [dest] in Hdest. subst d.
    reflexivity.
Qed.

Lemma C9_unidecode_missing_is_fatal_witness :
  let w := mkWorld (Some []) [] [] [] in
  normalize_unicode (sample_opts false true) = true
  ∧ (∀ p w', main ascii_lower None sample_server sample_record_line
                  sample_status_line (sample_opts false true) w
             ≠ (Returned p, w'))
  ∧ (dest w = Some [] ->
     main ascii_lower None sample_server sample_record_line
          sample_status_line (sample_opts false true) w
     = (Exited 1, mkWorld (Some []) (keyboard w) (stdout w)
                          (stderr w ++ [unidecode_error]))).
Proof.
  split; [reflexivity|].
  apply (C9_unidecode_missing_is_fatal ascii_lower sample_server
           sample_record_line sample_status_line
           (sample_opts false true) (mkWorld (Some []) [] [] [])).
  reflexivity.
Defined.

(** * Further properties of [process_concept] *)

Lemma designation_step_synonyms (sys : str) (st : ConceptState)
  (d : Designation) :
  (designation_step sys st d).1
  = from_option singleton ∅ (contribution sys d) ∪ st.1.
Proof.
  unfold designation_step, contribution.
  repeat case_bool_decide; try rewrite scan_types_spec;
    try destruct (matching_type _ _); cbn [fst from_option];
    try reflexivity.
  all: symmetry; apply (left_id_L ∅ (∪)).
Qed.

(** The synonym set after the loop: what it held before, and what each
    designation contributes, whatever their order. *)
Lemma foldl_step_synonyms (sys : str) (ds : list Designation)
  (st : ConceptState) :
  (foldl (designation_step sys) st ds).1
  = st.1 ∪ list_to_set (omap (contribution sys) ds).
Proof.
  revert st. induction ds as [|d ds IH]; intros st; cbn [foldl].
  - cbn. set_solver.
  - rewrite IH, designation_step_synonyms. cbn [omap list_omap].
    destruct (contribution sys d) as [s|]; cbn [from_option list_to_set];
      set_solver.
Qed.

Lemma elem_of_concept_synonyms (c : Concept) (opts : Opts) (s : str) :
  s ∈ (concept_state c opts).1 ↔
  s = strip (display c)
  ∨ ∃ ds d, designation c = Some ds ∧ d ∈ ds
            ∧ contribution (system c) d = Some s.
Proof.
  unfold concept_state. destruct (designation c) as [ds|].
  - rewrite foldl_step_synonyms. cbn [fst].
    rewrite elem_of_union, elem_of_singleton, elem_of_list_to_set,
      list_elem_of_omap.
    split; intros [H|H]; auto; right.
    + destruct H as (d & Hd & Hc). by exists ds, d.
    + destruct H as (ds' & d & [= <-] & Hd & Hc). by exists d.
  - cbn [fst]. rewrite elem_of_singleton. split; [auto|].
    intros [H|(ds & d & H & _)]; [done | discriminate].
Qed.

Lemma lstrip_idempotent (s : str) : lstrip (lstrip s) = lstrip s.
Proof.
  induction s as [|c s IH]; [done|]. cbn [lstrip].
  destruct (is_space c) eqn:E; [exact IH|]. cbn [lstrip]. by rewrite E.
Qed.

Lemma lstrip_snoc_nonspace (a : str) (c : N) :
  is_space c = false -> lstrip (a ++ [c]) = lstrip a ++ [c].
Proof.
  intros Hc. induction a as [|x a IH]; cbn [lstrip app].
  - by rewrite Hc.
  - by destruct (is_space x).
Qed.

Lemma lstrip_head (s : str) :
  lstrip s = [] ∨ ∃ c s', lstrip s = c :: s' ∧ is_space c = false.
Proof.
  induction s as [|c s IH]; [by left|]. cbn [lstrip].
  destruct (is_space c) eqn:E; [exact IH|]. right. by exists c, s.
Qed.

(** [strip] leaves nothing to strip. *)
Lemma strip_trimmed (s : str) : trimmed (strip s).
Proof.
  unfold trimmed, strip at 1.
  assert (lstrip (strip s) = strip s) as ->.
  { unfold strip, rstrip.
    destruct (lstrip_head s) as [->|(c & s' & -> & Hc)]; [done|].
    cbn [rev]. rewrite (lstrip_snoc_nonspace _ _ Hc), rev_app_distr.
    cbn [rev app lstrip]. by rewrite Hc. }
  unfold strip, rstrip. by rewrite rev_involutive, lstrip_idempotent.
Qed.

Lemma contribution_trimmed (sys : str) (d : Designation) (s : str) :
  contribution sys d = Some s -> trimmed s.
Proof.
  unfold contribution.
  repeat case_bool_decide; try destruct (matching_type _ _);
    intros [= <-]; apply strip_trimmed.
Qed.

Lemma terms_flags_off (lower unidecode : str -> str) (c : Concept)
  (opts : Opts) :
  lowercase opts = false -> normalize_unicode opts = false ->
  map term (process_concept lower unidecode c opts)
  = elements (concept_state c opts).1.
Proof.
  intros HL HU. unfold process_concept, emit. rewrite map_map, HL, HU.
  cbn [term normalize]. apply map_id.
Qed.

Lemma elem_of_terms (lower unidecode : str -> str) (c : Concept)
  (opts : Opts) (t : str) :
  t ∈ map term (process_concept lower unidecode c opts) ↔
  ∃ s, s ∈ (concept_state c opts).1
       ∧ t = normalize lower unidecode s (lowercase opts)
                       (normalize_unicode opts).
Proof.
  rewrite elem_of_map. split.
  - intros (r & -> & Hr). apply elem_of_process_concept in Hr as (s & Hs & ->).
    by exists s.
  - intros (s & Hs & ->).
    exists (emit lower unidecode c opts (concept_state c opts).2 s).
    split; [done|]. apply elem_of_process_concept. eauto.
Qed.

Lemma designation_step_type_any (sys : str) (st : ConceptState)
  (d : Designation) :
  (designation_step sys st d).2
  = if bool_decide (sys = SNOMED_URI) then default st.2 (recovered_type d)
    else st.2.
Proof.
  case_bool_decide as Hsys; [subst sys; apply designation_step_type|].
  unfold designation_step. repeat case_bool_decide; done.
Qed.

Lemma foldl_step_type_other (sys : str) (ds : list Designation)
  (st : ConceptState) :
  sys ≠ SNOMED_URI -> (foldl (designation_step sys) st ds).2 = st.2.
Proof.
  intros Hsys. revert st. induction ds as [|d ds IH]; intros st; [done|].
  cbn [foldl]. rewrite IH, designation_step_type_any.
  by rewrite bool_decide_eq_false_2.
Qed.

Lemma last_elem_of {A} (l : list A) (x : A) : last l = Some x -> x ∈ l.
Proof.
  induction l as [|y l IH]; [discriminate|].
  destruct l as [|z l]; cbn.
  - intros [= ->]. apply elem_of_cons. by left.
  - intros H. apply elem_of_cons. right. by apply IH.
Qed.

Lemma process_concept_display_term (lower unidecode : str -> str)
  (c : Concept) (opts : Opts) :
  normalize lower unidecode (strip (display c)) (lowercase opts)
            (normalize_unicode opts)
  ∈ map term (process_concept lower unidecode c opts).
Proof.
  apply elem_of_terms. exists (strip (display c)). split; [|done].
  apply elem_of_concept_synonyms. by left.
Qed.

Lemma process_concept_nonempty (lower unidecode : str -> str) (c : Concept)
  (opts : Opts) :
  (1 <= length (process_concept lower unidecode c opts))%nat.
Proof.
  pose proof (process_concept_display_term lower unidecode c opts) as H.
  destruct (process_concept lower unidecode c opts); [|cbn; lia].
  by apply elem_of_nil in H.
Qed.

(** The display, trimmed and normalized, is a term of every concept: no
    concept yields an empty sequence of records. *)
Theorem display_always_emitted (lower unidecode : str -> str) (c : Concept)
  (opts : Opts) :
  normalize lower unidecode (strip (display c)) (lowercase opts)
            (normalize_unicode opts)
  ∈ map term (process_concept lower unidecode c opts)
  ∧ (1 <= length (process_concept lower unidecode c opts))%nat.
Proof.
  split; [|apply process_concept_nonempty].
  apply elem_of_terms. exists (strip (display c)). split; [|reflexivity].
  apply elem_of_concept_synonyms. by left.
Qed.

(** All records of a concept carry the concept's code and one and the same
    one-element list of semantic types; that type is the default given on
    the command line or an entry of the vocabulary. *)
Theorem one_type_per_concept (lower unidecode : str -> str) (c : Concept)
  (opts : Opts) :
  ∃ T, (T = semantic opts ∨ T ∈ SNOMED_SEMANTIC_TYPES)
       ∧ ∀ r, r ∈ process_concept lower unidecode c opts ->
              cui r = code c ∧ stys r = [T].
Proof.
  exists (concept_state c opts).2. split.
  - unfold concept_state. destruct (designation c) as [ds|]; [|by left].
    destruct (decide (system c = SNOMED_URI)) as [->|Hsys].
    + rewrite foldl_step_type. cbn [snd].
      destruct (last (omap recovered_type ds)) as [T|] eqn:E; [|by left].
      right. apply last_elem_of, list_elem_of_omap in E as (d & _ & Hd).
      unfold recovered_type in Hd.
      destruct (_ && _); [|discriminate].
      by apply matching_type_Some in Hd as [? _].
    + left. by rewrite foldl_step_type_other.
  - intros r Hr. apply elem_of_process_concept in Hr as (s & _ & ->).
    by split.
Qed.

(** On a concept of another code system than SNOMED no type is ever
    recovered: every record carries the default, and a fully specified
    name contributes its whole trimmed value, suffix included. *)
Theorem non_snomed_concept_keeps_default (lower unidecode : str -> str)
  (c : Concept) (opts : Opts) :
  system c ≠ SNOMED_URI ->
  (∀ r, r ∈ process_concept lower unidecode c opts ->
        stys r = [semantic opts])
  ∧ (∀ ds d, designation c = Some ds -> d ∈ ds ->
             use_system d = SNOMED_URI -> use_code d = FSN_CODE ->
             normalize lower unidecode (strip (value d)) (lowercase opts)
                       (normalize_unicode opts)
             ∈ map term (process_concept lower unidecode c opts)).
Proof.
  intros Hsys. split.
  - intros r Hr. rewrite (process_concept_stys _ _ _ _ _ Hr). f_equal.
    unfold concept_state. destruct (designation c); [|done].
    by rewrite foldl_step_type_other.
  - intros ds d Hds Hd Hu Hc. apply elem_of_terms.
    exists (strip (value d)). split; [|done].
    apply elem_of_concept_synonyms. right. exists ds, d.
    split; [done|]. split; [done|]. unfold contribution.
    rewrite (bool_decide_eq_true_2 _ Hu).
    rewrite bool_decide_eq_false_2
      by (rewrite Hc; intros E; by apply codes_differ).
    rewrite (bool_decide_eq_true_2 _ Hc).
    by rewrite (bool_decide_eq_false_2 _ Hsys).
Qed.

Lemma non_snomed_concept_keeps_default_witness :
  (∀ r, r ∈ process_concept ascii_lower sample_unidecode icd_flu
              (sample_opts false false) ->
        stys r = [semantic (sample_opts false false)])
  ∧ (∀ ds d, designation icd_flu = Some ds -> d ∈ ds ->
             use_system d = SNOMED_URI -> use_code d = FSN_CODE ->
             normalize ascii_lower sample_unidecode (strip (value d))
                       false false
             ∈ map term (process_concept ascii_lower sample_unidecode icd_flu
                                         (sample_opts false false))).
Proof.
  apply (non_snomed_concept_keeps_default ascii_lower sample_unidecode
           icd_flu (sample_opts false false)).
  by_evaluation.
Defined.

(** A designation with the SNOMED synonym code always contributes its
    trimmed value, on a concept of any code system. *)
Theorem synonym_designation_emitted (lower unidecode : str -> str)
  (c : Concept) (opts : Opts) (ds : list Designation) (d : Designation) :
  designation c = Some ds -> d ∈ ds ->
  use_system d = SNOMED_URI -> use_code d = SYNONYM_CODE ->
  normalize lower unidecode (strip (value d)) (lowercase opts)
            (normalize_unicode opts)
  ∈ map term (process_concept lower unidecode c opts).
Proof.
  intros Hds Hd Hu Hc. apply elem_of_terms.
  exists (strip (value d)). split; [|done].
  apply elem_of_concept_synonyms. right. exists ds, d.
  split; [done|]. split; [done|]. unfold contribution.
  by rewrite (bool_decide_eq_true_2 _ Hu), (bool_decide_eq_true_2 _ Hc).
Qed.

Lemma synonym_designation_emitted_witness :
  normalize ascii_lower sample_unidecode
            (strip (value (syn_designation "Cardiac arrest "))) true false
  ∈ map term (process_concept ascii_lower sample_unidecode heart_attack
                              (sample_opts true false)).
Proof.
  apply (synonym_designation_emitted ascii_lower sample_unidecode
           heart_attack (sample_opts true false)
           [ syn_designation "Cardiac arrest ";
             fsn_designation "Myocardial infarction (disorder)" ]
           (syn_designation "Cardiac arrest ")).
  - reflexivity.
  - by_evaluation.
  - reflexivity.
  - reflexivity.
Defined.

(** A designation of the SNOMED [use] system whose code is neither the
    synonym code nor the fully-specified-name code is passed over. *)
Theorem other_use_code_ignored (lower unidecode : str -> str) (c : Concept)
  (opts : Opts) (l1 l2 : list Designation) (d : Designation) :
  designation c = Some (l1 ++ d :: l2) ->
  use_system d = SNOMED_URI ->
  use_code d ≠ SYNONYM_CODE -> use_code d ≠ FSN_CODE ->
  process_concept lower unidecode c opts
  = process_concept lower unidecode
      (mkConcept (code c) (system c) (display c) (Some (l1 ++ l2))) opts.
Proof.
  intros Hd Hu Hs Hf. apply process_concept_skip with d; [done|].
  intros st. unfold designation_step.
  by rewrite (bool_decide_eq_true_2 _ Hu), (bool_decide_eq_false_2 _ Hs),
    (bool_decide_eq_false_2 _ Hf).
Qed.

Lemma other_use_code_ignored_witness :
  process_concept ascii_lower sample_unidecode icd_flu
                  (sample_opts false false)
  = process_concept ascii_lower sample_unidecode
      (mkConcept (code icd_flu) (system icd_flu) (display icd_flu)
         (Some ([ syn_designation " Influenza";
                  fsn_designation "Influenza (disorder)" ] ++ [])))
      (sample_opts false false).
Proof.
  apply (other_use_code_ignored ascii_lower sample_unidecode icd_flu
           (sample_opts false false)
           [ syn_designation " Influenza";
             fsn_designation "Influenza (disorder)" ] []
           (mkDesignation SNOMED_URI (lit "900000000000550004")
                          (lit "An acute viral infection"))).
  - reflexivity.
  - reflexivity.
  - by_evaluation.
  - by_evaluation.
Defined.

Lemma size_union_le (X Y : gset str) : (size (X ∪ Y) <= size X + size Y)%nat.
Proof.
  rewrite size_union_alt.
  assert (size (Y ∖ X) <= size Y)%nat by (apply subseteq_size; set_solver).
  lia.
Qed.

Lemma size_list_to_set_le (l : list str) :
  (size (list_to_set l : gset str) <= length l)%nat.
Proof.
  induction l as [|x l IH]; cbn [list_to_set length].
  - by rewrite size_empty.
  - pose proof (size_union_le {[x]} (list_to_set l)) as H.
    rewrite size_singleton in H. lia.
Qed.

Lemma length_omap_le {A B} (f : A -> option B) (l : list A) :
  (length (omap f l) <= length l)%nat.
Proof.
  induction l as [|x l IH]; [done|]. cbn [omap list_omap length].
  destruct (f x); cbn [length]; lia.
Qed.

(** Each designation adds at most one record to the one of the display;
    and with both flags off no two records of a concept have the same
    term. *)
Theorem records_bounded_and_distinct (lower unidecode : str -> str)
  (c : Concept) (opts : Opts) :
  (∀ ds, designation c = Some ds ->
         (length (process_concept lower unidecode c opts) <= 1 + length ds)%nat)
  ∧ (lowercase opts = false -> normalize_unicode opts = false ->
     NoDup (map term (process_concept lower unidecode c opts))).
Proof.
  split.
  - intros ds Hds. unfold process_concept. rewrite length_map.
    change (length (elements (concept_state c opts).1))
      with (size (concept_state c opts).1).
    unfold concept_state. rewrite Hds, foldl_step_synonyms. cbn [fst].
    pose proof (size_union_le {[strip (display c)]}
                  (list_to_set (omap (contribution (system c)) ds))) as H1.
    pose proof (size_list_to_set_le (omap (contribution (system c)) ds)) as H2.
    pose proof (length_omap_le (contribution (system c)) ds) as H3.
    rewrite size_singleton in H1. lia.
  - intros HL HU. rewrite (terms_flags_off _ _ _ _ HL HU).
    apply NoDup_elements.
Qed.

Lemma records_bounded_and_distinct_witness :
  (∀ ds, designation heart_attack = Some ds ->
         (length (process_concept ascii_lower sample_unidecode heart_attack
                                  (sample_opts false false))
          <= 1 + length ds)%nat)
  ∧ (false = false -> false = false ->
     NoDup (map term (process_concept ascii_lower sample_unidecode
                                      heart_attack (sample_opts false false)))).
Proof.
  exact (records_bounded_and_distinct ascii_lower sample_unidecode
           heart_attack (sample_opts false false)).
Defined.

(** With both flags off exactly one record of a concept is flagged as
    preferred: the one whose term is the trimmed display. *)
Theorem one_preferred_record_flags_off (lower unidecode : str -> str)
  (c : Concept) (opts : Opts) :
  lowercase opts = false -> normalize_unicode opts = false ->
  ∃ r, r ∈ process_concept lower unidecode c opts
       ∧ term r = strip (display c) ∧ preferred r = true
       ∧ ∀ r', r' ∈ process_concept lower unidecode c opts ->
               preferred r' = true -> r' = r.
Proof.
  intros HL HU.
  exists (emit lower unidecode c opts (concept_state c opts).2
               (strip (display c))).
  assert (∀ s, term (emit lower unidecode c opts (concept_state c opts).2 s)
               = s) as Hterm.
  { intros s. unfold emit. by rewrite HL, HU. }
  split; [|split; [|split]].
  - apply elem_of_process_concept. exists (strip (display c)).
    split; [|done]. apply elem_of_concept_synonyms. by left.
  - apply Hterm.
  - unfold emit. rewrite HL, HU. cbn [preferred normalize].
    by apply bool_decide_eq_true_2.
  - intros r' Hr' Hp.
    rewrite (process_concept_preferred _ _ _ _ _ Hr') in Hp.
    apply bool_decide_eq_true_1 in Hp.
    apply elem_of_process_concept in Hr' as (s & _ & ->).
    rewrite Hterm in Hp. by subst s.
Qed.

Lemma one_preferred_record_flags_off_witness :
  ∃ r, r ∈ process_concept ascii_lower sample_unidecode heart_attack
             (sample_opts false false)
       ∧ term r = strip (display heart_attack) ∧ preferred r = true
       ∧ ∀ r', r' ∈ process_concept ascii_lower sample_unidecode heart_attack
                      (sample_opts false false) ->
               preferred r' = true -> r' = r.
Proof.
  apply (one_preferred_record_flags_off ascii_lower sample_unidecode
           heart_attack (sample_opts false false)); reflexivity.
Defined.

(** With both flags off every term emitted is trimmed: it has no blank at
    either end. *)
Theorem terms_trimmed_flags_off (lower unidecode : str -> str) (c : Concept)
  (opts : Opts) (t : str) :
  lowercase opts = false -> normalize_unicode opts = false ->
  t ∈ map term (process_concept lower unidecode c opts) ->
  strip t = t.
Proof.
  intros HL HU (s & Hs & ->)%elem_of_terms. rewrite HL, HU.
  cbn [normalize].
  apply elem_of_concept_synonyms in Hs as [->|(ds & d & _ & _ & Hc)].
  - apply strip_trimmed.
  - by apply contribution_trimmed in Hc.
Qed.

Lemma terms_trimmed_flags_off_witness :
  lit "Influenza" ∈ map term (process_concept ascii_lower sample_unidecode
                                icd_flu (sample_opts false false))
  ∧ strip (lit "Influenza") = lit "Influenza".
Proof.
  assert (lit "Influenza"
          ∈ map term (process_concept ascii_lower sample_unidecode icd_flu
                                      (sample_opts false false))) as H
    by by_evaluation.
  split; [exact H|].
  apply (terms_trimmed_flags_off ascii_lower sample_unidecode icd_flu
           (sample_opts false false) (lit "Influenza"));
    [reflexivity | reflexivity | exact H].
Defined.

(** The terms, codes and preferred flags of a concept do not depend on the
    order of its designations: permuting the designations gives the same
    records up to their order and their semantic type. *)
Theorem terms_independent_of_designation_order (lower unidecode : str -> str)
  (opts : Opts) (code system display : str) (ds ds' : list Designation) :
  ds ≡ₚ ds' ->
  map (fun r => (term r, cui r, preferred r))
      (process_concept lower unidecode
         (mkConcept code system display (Some ds)) opts)
  ≡ₚ map (fun r => (term r, cui r, preferred r))
         (process_concept lower unidecode
            (mkConcept code system display (Some ds')) opts).
Proof.
  intros Hperm. unfold process_concept. rewrite !map_map.
  assert ((concept_state (mkConcept code system display (Some ds)) opts).1
          = (concept_state (mkConcept code system display (Some ds')) opts).1)
    as ->.
  { unfold concept_state. cbn [designation]. rewrite !foldl_step_synonyms.
    f_equal. apply set_eq. intros s.
    rewrite !elem_of_list_to_set, !list_elem_of_omap.
    split; intros (d & Hd & Hc); exists d; split; try done.
    - by rewrite <- Hperm.
    - by rewrite Hperm. }
  reflexivity.
Qed.

Lemma terms_independent_of_designation_order_witness :
  map (fun r => (term r, cui r, preferred r))
      (process_concept ascii_lower sample_unidecode
         (mkConcept (lit "A1") SNOMED_URI (lit "Heart attack")
            (Some [ fsn_designation "Myocardial infarction (disorder)";
                    fsn_designation "Heart attack (finding)" ]))
         (sample_opts false false))
  ≡ₚ map (fun r => (term r, cui r, preferred r))
         (process_concept ascii_lower sample_unidecode
            (mkConcept (lit "A1") SNOMED_URI (lit "Heart attack")
               (Some [ fsn_designation "Heart attack (finding)";
                       fsn_designation "Myocardial infarction (disorder)" ]))
            (sample_opts false false)).
Proof.
  apply (terms_independent_of_designation_order ascii_lower sample_unidecode
           (sample_opts false false) (lit "A1") SNOMED_URI
           (lit "Heart attack")).
  apply perm_swap.
Defined.

(** The order of the vocabulary does not matter: a value ends in ["(T)"]
    for at most one entry [T], so scanning the entries in any other order
    stops at the same one. *)
Theorem vocabulary_scan_order_irrelevant (v : str) (types : list str) :
  types ≡ₚ SNOMED_SEMANTIC_TYPES ->
  matching_type v types = matching_type v SNOMED_SEMANTIC_TYPES
  ∧ ∀ st, scan_types v types st = scan_types v SNOMED_SEMANTIC_TYPES st.
Proof.
  intros Hperm.
  assert (matching_type v types = matching_type v SNOMED_SEMANTIC_TYPES) as H.
  { destruct (matching_type v types) as [T|] eqn:E.
    - apply matching_type_Some in E as [HT Hv]. symmetry.
      apply matching_type_vocabulary; [by rewrite <- Hperm | done].
    - symmetry. apply matching_type_None. intros t Ht.
      rewrite matching_type_None in E. apply E. by rewrite Hperm. }
  split; [exact H|]. intros st. by rewrite !scan_types_spec, H.
Qed.

Lemma vocabulary_scan_order_irrelevant_witness :
  matching_type (lit "Tumor stage (staging scales)")
                (reverse SNOMED_SEMANTIC_TYPES)
  = matching_type (lit "Tumor stage (staging scales)") SNOMED_SEMANTIC_TYPES
  ∧ ∀ st, scan_types (lit "Tumor stage (staging scales)")
                     (reverse SNOMED_SEMANTIC_TYPES) st
          = scan_types (lit "Tumor stage (staging scales)")
                       SNOMED_SEMANTIC_TYPES st.
Proof.
  apply (vocabulary_scan_order_irrelevant
           (lit "Tumor stage (staging scales)")
           (reverse SNOMED_SEMANTIC_TYPES)).
  apply reverse_Permutation.
Defined.

(** On a SNOMED concept a fully specified name recovers the type [T]
    exactly when its value ends in ["(T)"] for a vocabulary entry [T]; no
    blank is needed before the parenthesis.  The last [len(T) + 2] code
    points are then cut off and the rest, trimmed, becomes a synonym. *)
Theorem fsn_suffix_without_blank (st : ConceptState) (d : Designation)
  (a T : str) :
  use_system d = SNOMED_URI -> use_code d = FSN_CODE ->
  T ∈ SNOMED_SEMANTIC_TYPES ->
  value d = a ++ lit "(" ++ T ++ lit ")" ->
  recovered_type d = Some T
  ∧ designation_step SNOMED_URI st d = ({[ strip a ]} ∪ st.1, T).
Proof.
  intros Hs Hc HT Hv.
  assert (matching_type (value d) SNOMED_SEMANTIC_TYPES = Some T) as Hm.
  { apply matching_type_vocabulary; [done|]. rewrite Hv.
    apply endswith_true. by exists a. }
  split.
  - unfold recovered_type.
    by rewrite (bool_decide_eq_true_2 _ Hs), (bool_decide_eq_true_2 _ Hc).
  - unfold designation_step.
    rewrite (bool_decide_eq_true_2 _ Hs).
    rewrite bool_decide_eq_false_2
      by (rewrite Hc; intros E; by apply codes_differ).
    rewrite (bool_decide_eq_true_2 _ Hc).
    rewrite (bool_decide_eq_true_2 (SNOMED_URI = SNOMED_URI)) by done.
    rewrite scan_types_spec, Hm, Hv.
    replace (length T + 2)%nat with (length (lit "(" ++ T ++ lit ")")).
    + by rewrite drop_last_app.
    + rewrite !length_app. change (length (lit "(")) with 1%nat.
      change (length (lit ")")) with 1%nat. lia.
Qed.

Lemma fsn_suffix_without_blank_witness :
  recovered_type (fsn_designation "Myocardial infarction(disorder)")
  = Some (lit "disorder")
  ∧ designation_step SNOMED_URI ({[ lit "Heart attack" ]}, lit "UNKNOWN")
      (fsn_designation "Myocardial infarction(disorder)")
    = ({[ strip (lit "Myocardial infarction") ]}
       ∪ ({[ lit "Heart attack" ]}, lit "UNKNOWN").1,
       lit "disorder").
Proof.
  apply (fsn_suffix_without_blank
           ({[ lit "Heart attack" ]}, lit "UNKNOWN")
           (fsn_designation "Myocardial infarction(disorder)")
           (lit "Myocardial infarction") (lit "disorder")).
  - reflexivity.
  - reflexivity.
  - by_evaluation.
  - reflexivity.
Defined.

(** * Further properties of [extract_from_fhir] *)

Section PaginatorMore.

Variable server : Request -> Expansion.
Context {A : Type}.
Variable per_concept : Concept -> Opts -> list A.

Lemma more_pages_closed_form (fuel : nat) (opts : Opts) (offset nf : Z)
  (ex : Extraction A) :
  more_pages server per_concept fuel opts 100 offset nf = Some ex ->
  requests ex
  = map (fun j => request_for opts 100 (offset + 100 * Z.of_nat j))
        (seq 0 (Z.to_nat (Z.max 0 ((nf - offset + 99) / 100))))
  ∧ yielded ex = flat_map (page server per_concept opts) (requests ex).
Proof.
  revert offset ex. induction fuel as [|fuel IH]; intros offset ex.
  - cbn [more_pages]. destruct (offset <? nf) eqn:E; [discriminate|].
    intros [= <-]. apply Z.ltb_ge in E.
    replace (Z.to_nat (Z.max 0 ((nf - offset + 99) / 100))) with 0%nat
      by (Z.to_euclidean_division_equations; lia).
    done.
  - rewrite more_pages_S. destruct (offset <? nf) eqn:E.
    + apply Z.ltb_lt in E.
      destruct (more_pages server per_concept fuel opts 100 (offset + 100) nf)
        as [rest|] eqn:Hrest; [|discriminate].
      intros [= <-]. destruct (IH _ _ Hrest) as [Hreq Hy].
      cbn [requests yielded].
      replace (Z.to_nat (Z.max 0 ((nf - offset + 99) / 100)))
        with (S (Z.to_nat (Z.max 0 ((nf - (offset + 100) + 99) / 100))))
        by (Z.to_euclidean_division_equations; lia).
      cbn [seq map flat_map]. split.
      * f_equal; [f_equal; lia|]. rewrite Hreq, <- seq_shift, map_map.
        apply map_ext. intros j. f_equal. lia.
      * by rewrite Hy.
    + intros [= <-]. apply Z.ltb_ge in E.
      replace (Z.to_nat (Z.max 0 ((nf - offset + 99) / 100))) with 0%nat
        by (Z.to_euclidean_division_equations; lia).
      done.
Qed.

Lemma extract_from_fhir_pages (opts : Opts) (ex : Extraction A) :
  extract_from_fhir server per_concept opts = Some ex ->
  requests ex
  = request_for opts 100 0
    :: map (fun j => request_for opts 100 (0 + 100 + 100 * Z.of_nat j))
           (seq 0 (Z.to_nat
                     (Z.max 0 ((total (server (request_for opts 100 0))
                                - (0 + 100) + 99) / 100))))
  ∧ yielded ex = flat_map (page server per_concept opts) (requests ex).
Proof.
  unfold extract_from_fhir.
  set (nf := total (server (request_for opts 100 0))).
  destruct (more_pages server per_concept (Z.to_nat nf) opts 100 (0 + 100) nf)
    as [rest|] eqn:Hrest; [|discriminate].
  intros [= <-]. cbn [requests yielded].
  destruct (more_pages_closed_form _ _ _ _ _ Hrest) as [Hreq Hy].
  rewrite <- Hreq. split; [reflexivity|].
  cbn [flat_map]. by rewrite Hy.
Qed.

(** The requests in closed form, and the stream as the pages in request
    order: offsets 0, 100, 200, ..., one request per started hundred of
    the [total] reported by the first response and at least one; all with
    the same URL and parameters; every concept of every page goes through
    [per_concept], nothing is dropped or merged across pages. *)
Theorem extract_from_fhir_closed_form (opts : Opts) :
  ∃ ex, extract_from_fhir server per_concept opts = Some ex
        ∧ requests ex
          = expected_requests opts (total (server (request_for opts 100 0)))
        ∧ yielded ex = flat_map (page server per_concept opts) (requests ex).
Proof.
  destruct (extract_from_fhir_terminates server per_concept opts)
    as (ex & Hex & _ & _).
  exists ex. split; [exact Hex|].
  destruct (extract_from_fhir_pages opts ex Hex) as [Hreq Hy].
  split; [|exact Hy]. rewrite Hreq. unfold expected_requests.
  set (nf := total (server (request_for opts 100 0))).
  replace (Z.to_nat (Z.max 1 ((nf + 99) / 100)))
    with (S (Z.to_nat (Z.max 0 ((nf - (0 + 100) + 99) / 100))))
    by (Z.to_euclidean_division_equations; lia).
  cbn [seq map]. f_equal. rewrite <- seq_shift, map_map.
  apply map_ext. intros j. f_equal. lia.
Qed.

(** When the first response reports a total of at most 100 (zero and
    negative totals included) that request is the only one, and the
    concepts it carries are processed all the same. *)
Theorem single_page_when_total_small (opts : Opts) :
  total (server (request_for opts 100 0)) <= 100 ->
  extract_from_fhir server per_concept opts
  = Some (mkExtraction [request_for opts 100 0]
                       (page server per_concept opts (request_for opts 100 0))).
Proof.
  intros Hle. unfold extract_from_fhir.
  rewrite more_pages_done by lia. cbn [requests yielded].
  by rewrite app_nil_r.
Qed.

End PaginatorMore.

Lemma single_page_when_total_small_witness :
  extract_from_fhir stale_server raw_concept (sample_opts false false)
  = Some (mkExtraction [request_for (sample_opts false false) 100 0] [flu]).
Proof.
  apply (single_page_when_total_small stale_server raw_concept
           (sample_opts false false)).
  vm_compute. discriminate.
Defined.

Lemma flat_map_length_le {X Y Z} (f : X -> list Y) (g : X -> list Z)
  (l : list X) :
  (∀ x, (length (f x) <= length (g x))%nat) ->
  (length (flat_map f l) <= length (flat_map g l))%nat.
Proof.
  intros H. induction l as [|x l IH]; [done|].
  cbn [flat_map]. rewrite !length_app. specialize (H x). lia.
Qed.

(** Every concept fetched yields at least one record, so the stream of
    records is at least as long as the stream of raw concepts. *)
Theorem every_concept_yields_a_record (lower unidecode : str -> str)
  (server : Request -> Expansion) (opts : Opts) :
  ∃ ex raw,
    extract_from_fhir server (process_concept lower unidecode) opts = Some ex
    ∧ extract_from_fhir server raw_concept opts = Some raw
    ∧ (length (yielded raw) <= length (yielded ex))%nat.
Proof.
  destruct (extract_from_fhir_terminates
              server (process_concept lower unidecode) opts)
    as (ex & Hex & _ & _).
  destruct (extract_from_fhir_terminates server raw_concept opts)
    as (raw & Hraw & _ & _).
  exists ex, raw. split; [exact Hex|]. split; [exact Hraw|].
  destruct (extract_from_fhir_pages _ _ _ _ Hex) as [Hreq Hy].
  destruct (extract_from_fhir_pages _ _ _ _ Hraw) as [Hreq' Hy'].
  rewrite Hy, Hy', Hreq, Hreq'.
  apply flat_map_length_le. intros r.
  apply flat_map_length_le. intros c.
  apply process_concept_nonempty.
Qed.

Lemma languages_keys_distinct : NoDup (map fst FHIR_LANGUAGES).
Proof. by_evaluation. Qed.

Lemma assoc_unique {K V} (l : list (K * V)) (k : K) (v v' : V) :
  NoDup (map fst l) -> (k, v) ∈ l -> (k, v') ∈ l -> v = v'.
Proof.
  induction l as [|[k0 v0] l IH]; cbn [map fst].
  - intros _ H. by apply elem_of_nil in H.
  - intros [Hk0 Hnd]%NoDup_cons [H|H]%elem_of_cons [H'|H']%elem_of_cons.
    + congruence.
    + injection H as -> ->. exfalso. apply Hk0, elem_of_map.
      by exists (k0, v').
    + injection H' as -> ->. exfalso. apply Hk0, elem_of_map.
      by exists (k0, v).
    + by apply IH.
Qed.

(** The URL of every request is the server URL followed by
    [ValueSet/$expand?], with a slash put between the two exactly when
    the server URL does not end in one.  The display language is what
    [FHIR_LANGUAGES] holds for the language of the command line, and [en]
    when the table has no such key.  The other parameters are the count
    and offset given, the value-set URL, and [true] twice. *)
Theorem request_parameters (opts : Opts) (count offset : Z) :
  let r := request_for opts count offset in
  (endswith (fhir_server opts) (lit "/") = true ->
   request_url r = fhir_server opts ++ lit "ValueSet/$expand?")
  ∧ (endswith (fhir_server opts) (lit "/") = false ->
     request_url r = fhir_server opts ++ lit "/ValueSet/$expand?")
  ∧ (∀ code, (language opts, code) ∈ FHIR_LANGUAGES ->
             p_displayLanguage r = code)
  ∧ (language opts ∉ map fst FHIR_LANGUAGES -> p_displayLanguage r = lit "en")
  ∧ endswith (request_url r) (lit "/ValueSet/$expand?") = true
  ∧ p_count r = count ∧ p_offset r = offset ∧ p_url r = valueset_url opts
  ∧ p_includeDesignations r = lit "true" ∧ p_activeOnly r = lit "true".
Proof.
  cbv zeta. unfold request_for.
  cbn [request_url p_displayLanguage p_count p_offset p_url
       p_includeDesignations p_activeOnly].
  split; [|split; [|split; [|split; [|split]]]]; try done.
  - by intros ->.
  - by intros ->.
  - intros code Hcode. unfold fhir_language.
    destruct (list_find _ _) as [[i [k v]]|] eqn:E.
    + apply list_find_Some in E as (Hi & Hk & _). cbn in Hk. subst k.
      cbn [snd]. apply list_elem_of_lookup_2 in Hi.
      exact (assoc_unique _ _ _ _ languages_keys_distinct Hi Hcode).
    + apply list_find_None in E.
      apply (proj1 (Forall_forall _ _) E) in Hcode. by cbn in Hcode.
  - intros Hnot. unfold fhir_language.
    destruct (list_find _ _) as [[i [k v]]|] eqn:E; [|done].
    apply list_find_Some in E as (Hi & Hk & _). cbn in Hk. subst k.
    exfalso. apply Hnot. apply elem_of_map. exists (language opts, v).
    split; [done|]. by apply list_elem_of_lookup_2 in Hi.
  - destruct (endswith (fhir_server opts) (lit "/")) eqn:E.
    + apply endswith_true in E as [a Ha]. apply endswith_true. exists a.
      rewrite Ha. change (lit "/ValueSet/$expand?")
        with (lit "/" ++ lit "ValueSet/$expand?").
      by rewrite <- !app_assoc.
    + apply endswith_true. exists (fhir_server opts).
      by change (lit "/ValueSet/$expand?")
        with (lit "/" ++ lit "ValueSet/$expand?").
Qed.

Lemma request_parameters_witness :
  let r := request_for (sample_opts false false) 100 200 in
  endswith (fhir_server (sample_opts false false)) (lit "/") = false
  ∧ (lit "ENG", lit "en") ∈ FHIR_LANGUAGES
  ∧ request_url r = lit "https://tx.ontoserver.csiro.au/fhir/ValueSet/$expand?"
  ∧ p_displayLanguage r = lit "en".
Proof.
  cbv zeta.
  destruct (request_parameters (sample_opts false false) 100 200)
    as (_ & Hurl & Hlang & _).
  assert (endswith (fhir_server (sample_opts false false)) (lit "/") = false)
    as Hslash by by vm_compute.
  assert ((lit "ENG", lit "en") ∈ FHIR_LANGUAGES) as Heng by by_evaluation.
  split; [exact Hslash|]. split; [exact Heng|].
  split; [exact (Hurl Hslash) | exact (Hlang (lit "en") Heng)].
Defined.

(** * Further properties of [parse_and_encode_ngrams] *)

Lemma index_record_sublist (st : Stores) (r : ExtractedRecord) :
  ss_db st `sublist_of` map term (cuisty_db st) ->
  ss_db (index_record st r) `sublist_of` map term (cuisty_db (index_record st r)).
Proof.
  intros H. unfold index_record.
  case_bool_decide; cbn [ss_db cuisty_db]; rewrite map_app.
  - by apply sublist_inserts_r.
  - by apply sublist_app.
Qed.

Lemma foldl_index_record_sublist (recs : list ExtractedRecord) (st : Stores) :
  ss_db st `sublist_of` map term (cuisty_db st) ->
  ss_db (foldl index_record st recs)
  `sublist_of` map term (cuisty_db (foldl index_record st recs)).
Proof.
  revert st. induction recs as [|r recs IH]; intros st H; [done|].
  cbn [foldl]. by apply IH, index_record_sublist.
Qed.

Lemma foldl_index_record_dirs (recs : list ExtractedRecord) (st : Stores) :
  made_dirs (foldl index_record st recs) = made_dirs st.
Proof.
  revert st. induction recs as [|r recs IH]; intros st; [done|].
  cbn [foldl]. rewrite IH. unfold index_record. by case_bool_decide.
Qed.

(** The similarity index receives the distinct terms of the stream, each
    once and in the order of the stream: as many inserts as there are
    distinct terms, never more than into the key-value store, which
    receives one insert per record. *)
Theorem similarity_index_distinct_terms (extracted_it : list ExtractedRecord)
  (simstring_dir cuisty_dir : str) :
  let st := parse_and_encode_ngrams extracted_it simstring_dir cuisty_dir in
  length (ss_db st) = size (list_to_set (map term extracted_it) : gset str)
  ∧ ss_db st `sublist_of` map term extracted_it
  ∧ (length (ss_db st) <= length (cuisty_db st))%nat
  ∧ length (cuisty_db st) = length extracted_it
  ∧ made_dirs st = [simstring_dir; cuisty_dir].
Proof.
  cbv zeta. unfold parse_and_encode_ngrams.
  set (st0 := mkStores [simstring_dir; cuisty_dir] ∅ [] []).
  assert (stores_consistent st0) as H0.
  { split; [|split]; cbn [simstring_terms ss_db cuisty_db map st0].
    - intros t. rewrite elem_of_nil. set_solver.
    - constructor.
    - done. }
  destruct (foldl_index_record extracted_it st0 H0)
    as [(Hset & Hnd & Hkeys) Hdb].
  pose proof (foldl_index_record_sublist extracted_it st0
                (sublist_nil_l _)) as Hsub.
  rewrite Hdb in Hsub, Hkeys |- *. cbn [cuisty_db st0 app] in *.
  split; [|split; [exact Hsub|split; [|split]]].
  - rewrite <- (size_list_to_set (C:=gset str) _ Hnd). f_equal.
    apply set_eq. intros t. by rewrite !elem_of_list_to_set.
  - apply sublist_length in Hsub. by rewrite length_map in Hsub.
  - done.
  - by rewrite foldl_index_record_dirs.
Qed.

Lemma foldl_index_record_seen (recs : list ExtractedRecord) (st : Stores) :
  (∀ r, r ∈ recs -> term r ∈ simstring_terms st) ->
  ss_db (foldl index_record st recs) = ss_db st
  ∧ simstring_terms (foldl index_record st recs) = simstring_terms st.
Proof.
  revert st. induction recs as [|r recs IH]; intros st H; [done|].
  cbn [foldl].
  assert (term r ∈ simstring_terms st) as Hr
    by (apply H, elem_of_cons; by left).
  assert (ss_db (index_record st r) = ss_db st
          ∧ simstring_terms (index_record st r) = simstring_terms st)
    as [Hss Hset].
  { unfold index_record. by rewrite (bool_decide_eq_true_2 _ Hr). }
  destruct (IH (index_record st r)) as [-> ->].
  - intros r' Hr'. rewrite Hset. apply H, elem_of_cons. by right.
  - by split.
Qed.

(** Records whose terms have all been seen earlier in the stream add
    nothing to the similarity index, and one key-value insert each. *)
Theorem seen_terms_not_reinserted (recs more : list ExtractedRecord)
  (simstring_dir cuisty_dir : str) :
  (∀ r, r ∈ more -> term r ∈ map term recs) ->
  ss_db (parse_and_encode_ngrams (recs ++ more) simstring_dir cuisty_dir)
  = ss_db (parse_and_encode_ngrams recs simstring_dir cuisty_dir)
  ∧ cuisty_db (parse_and_encode_ngrams (recs ++ more) simstring_dir cuisty_dir)
    = cuisty_db (parse_and_encode_ngrams recs simstring_dir cuisty_dir)
      ++ more.
Proof.
  intros Hseen. unfold parse_and_encode_ngrams. rewrite foldl_app.
  set (st0 := mkStores [simstring_dir; cuisty_dir] ∅ [] []).
  assert (stores_consistent st0) as H0.
  { split; [|split]; cbn [simstring_terms ss_db cuisty_db map st0].
    - intros t. rewrite elem_of_nil. set_solver.
    - constructor.
    - done. }
  destruct (foldl_index_record recs st0 H0) as [(Hset & Hnd & Hkeys) Hdb].
  split.
  - apply foldl_index_record_seen. intros r Hr.
    apply Hset, Hkeys. rewrite Hdb. cbn [cuisty_db st0 app]. by apply Hseen.
  - destruct (foldl_index_record more (foldl index_record st0 recs))
      as [_ ->]; [by split|]. done.
Qed.

Lemma seen_terms_not_reinserted_witness :
  let recs := process_concept ascii_lower sample_unidecode heart_attack
                              (sample_opts false false) in
  ss_db (parse_and_encode_ngrams (recs ++ recs) (lit "ss") (lit "kv"))
  = ss_db (parse_and_encode_ngrams recs (lit "ss") (lit "kv"))
  ∧ cuisty_db (parse_and_encode_ngrams (recs ++ recs) (lit "ss") (lit "kv"))
    = cuisty_db (parse_and_encode_ngrams recs (lit "ss") (lit "kv")) ++ recs.
Proof.
  apply (seen_terms_not_reinserted
           (process_concept ascii_lower sample_unidecode heart_attack
                            (sample_opts false false))
           (process_concept ascii_lower sample_unidecode heart_attack
                            (sample_opts false false))
           (lit "ss") (lit "kv")).
  intros r Hr. apply elem_of_map. by exists r.
Defined.

(** * Further properties of [main] *)

Lemma filter_fresh (fp : str) (entries : list (str * Entry)) :
  fp ∉ map fst entries ->
  filter (fun e : str * Entry => e.1 ≠ fp) entries = entries.
Proof.
  induction entries as [|e entries IH]; intros H; [done|].
  rewrite filter_cons. rewrite decide_True.
  - f_equal. apply IH. intros Hin. apply H. cbn [map].
    apply elem_of_cons. by right.
  - intros Heq. apply H. cbn [map]. apply elem_of_cons. by left.
Qed.

Lemma write_file_fresh (fp content : str) (entries : list (str * Entry))
  (kb out err : list str) :
  fp ∉ map fst entries ->
  write_file fp content (mkWorld (Some entries) kb out err)
  = (Returned tt,
     mkWorld (Some (entries ++ [(fp, File content)])) kb out err).
Proof.
  intros H. unfold write_file. cbn [dest keyboard stdout stderr].
  rewrite bool_decide_eq_false_2.
  - by rewrite (filter_fresh _ _ H).
  - intros Hin. apply H, elem_of_map. by exists (fp, Directory).
Qed.

Lemma mkdir_fresh (path : str) (entries : list (str * Entry))
  (kb out err : list str) :
  path ∉ map fst entries ->
  mkdir path (mkWorld (Some entries) kb out err)
  = (Returned tt, mkWorld (Some (entries ++ [(path, Directory)])) kb out err).
Proof.
  intros H. unfold mkdir. cbn [dest keyboard stdout stderr].
  by rewrite (bool_decide_eq_false_2 _ H).
Qed.

(** Joining one directory with two relative names gives two paths unless
    the names are the same. *)
Lemma path_join_inj (a b b' : str) :
  startswith b (lit "/") = false -> startswith b' (lit "/") = false ->
  path_join a b = path_join a b' -> b = b'.
Proof.
  intros Hb Hb'. unfold path_join. rewrite Hb, Hb'.
  destruct (_ || _).
  - by intros ?%app_inv_head.
  - by intros ?%app_inv_head%app_inv_head.
Qed.

Lemma bind_exited {A B} (m : Prog A) (k : A -> Prog B) (w w' : World)
  (status : Z) :
  m w = (Exited status, w') -> bind m k w = (Exited status, w').
Proof. intros H. unfold bind. by rewrite H. Qed.

Lemma bind_ext {A B} (m : Prog A) (k k' : A -> Prog B) (w : World) :
  (∀ a w', k a w' = k' a w') -> bind m k w = bind m k' w.
Proof. intros H. unfold bind. destruct (m w) as [[a|s|e] w']; auto. Qed.

Ltac run_step := erewrite bind_returned by reflexivity; cbv beta.

Ltac names_differ :=
  let Heq := fresh "Heq" in
  intros Heq; apply path_join_inj in Heq;
  [ vm_compute in Heq; discriminate Heq | by vm_compute | by vm_compute ].

Ltac fresh_path :=
  cbn [map fst app];
  repeat (apply not_elem_of_cons; split; [ names_differ |]);
  apply not_elem_of_nil.

(** Settles the two tests on the destination directory once the world is
    known. *)
Ltac decide_guard :=
  match goal with
  | |- context [bool_decide (is_Some (dest ?w))] =>
      first
        [ rewrite (bool_decide_eq_true_2 (is_Some (dest w)))
            by (cbn [dest]; eauto)
        | rewrite (bool_decide_eq_false_2 (is_Some (dest w)))
            by (cbn [dest]; apply is_Some_None) ]
  | |- context [bool_decide (0 < length ?l)%nat] =>
      first
        [ rewrite (bool_decide_eq_true_2 (0 < length l)%nat)
            by (cbn [length]; lia)
        | rewrite (bool_decide_eq_false_2 (0 < length l)%nat)
            by (cbn [length]; lia) ]
  end;
  cbn [negb].

Ltac elem_search :=
  repeat first [ apply elem_of_cons; by left | apply elem_of_cons; right ].

Ltac write_step :=
  erewrite bind_returned by (apply write_file_fresh; fresh_path);
  cbv beta; cbn [app].

Ltac mkdir_step :=
  erewrite bind_returned by (apply mkdir_fresh; fresh_path);
  cbv beta; cbn [app].

(** On an existing, empty destination directory, with [unidecode] bound
    whenever the flag asks for it, [main] asks nothing and runs to its
    end.  It leaves in the directory the flag files and the two store
    directories and nothing else; it prints one line per record of the
    generator's stream, in stream order, and then the status line; it
    writes nothing to the standard error stream; and it hands the whole
    stream to the index builder.  The marker file of a flag is there
    exactly when the flag is set; the other two files hold the language
    and the backend. *)
Theorem main_on_prepared_directory (lower : str -> str)
  (unidecode_name : option (str -> str)) (server : Request -> Expansion)
  (record_line : ExtractedRecord -> str) (status_line : Z -> str)
  (opts : Opts) (kb out err : list str) :
  (normalize_unicode opts = true -> is_Some unidecode_name) ->
  ∃ ex entries,
    extract_from_fhir server
      (process_concept lower (unidecode_fn unidecode_name)) opts = Some ex
    ∧ main lower unidecode_name server record_line status_line opts
           (mkWorld (Some []) kb out err)
      = (Returned
           (Some (requests ex,
                  parse_and_encode_ngrams (yielded ex)
                    (path_join (destination_path opts)
                               (lit "umls-simstring.db"))
                    (path_join (destination_path opts)
                               (lit "cui-semtypes.db")))),
         mkWorld (Some entries) kb
                 (out ++ map record_line (yielded ex)
                  ++ [status_line (total (server (request_for opts 100 0)))])
                 err)
    ∧ entries = flag_files opts ++ store_dirs opts
    ∧ (path_join (destination_path opts) (lit "normalize-unicode.flag")
       ∈ map fst entries ↔ normalize_unicode opts = true)
    ∧ (path_join (destination_path opts) (lit "lowercase.flag")
       ∈ map fst entries ↔ lowercase opts = true)
    ∧ (path_join (destination_path opts) (lit "language.flag"),
       File (language opts)) ∈ entries
    ∧ (path_join (destination_path opts) (lit "database_backend.flag"),
       File (database_backend opts)) ∈ entries.
Proof.
  intros Hname.
  destruct (extract_from_fhir_terminates
              server (process_concept lower (unidecode_fn unidecode_name)) opts)
    as (ex & Hex & _).
  exists ex, (flag_files opts ++ store_dirs opts). split; [exact Hex|].
  split; [|split; [reflexivity|]].
  - unfold main, flag_files, store_dirs. rewrite Hex.
    destruct (normalize_unicode opts) eqn:HU, (lowercase opts) eqn:HL.
    + destruct Hname as [f ->]; [done|]. do 4 run_step.
      erewrite bind_returned;
        [| erewrite bind_returned by reflexivity;
           apply write_file_fresh; fresh_path ].
      cbv beta. cbn [app]. do 3 write_step. do 2 mkdir_step.
      do 2 run_step. cbn [ret dest keyboard stdout stderr].
      by rewrite <- app_assoc.
    + destruct Hname as [f ->]; [done|]. do 4 run_step.
      erewrite bind_returned;
        [| erewrite bind_returned by reflexivity;
           apply write_file_fresh; fresh_path ].
      cbv beta. cbn [app]. run_step. do 2 write_step. do 2 mkdir_step.
      do 2 run_step. cbn [ret dest keyboard stdout stderr].
      by rewrite <- app_assoc.
    + do 5 run_step. do 3 write_step. do 2 mkdir_step.
      do 2 run_step. cbn [ret dest keyboard stdout stderr].
      by rewrite <- app_assoc.
    + do 6 run_step. do 2 write_step. do 2 mkdir_step.
      do 2 run_step. cbn [ret dest keyboard stdout stderr].
      by rewrite <- app_assoc.
  - unfold flag_files, store_dirs.
    destruct (normalize_unicode opts), (lowercase opts); cbn [app map fst].
    all: split; [|split; [|split]].
    all: try solve [elem_search].
    all: split; intros H;
      first [ reflexivity | discriminate H
            | solve [exfalso; revert H; fresh_path] | solve [elem_search] ].
Qed.

Lemma main_on_prepared_directory_witness :
  ∃ ex entries,
    extract_from_fhir sample_server
      (process_concept ascii_lower (unidecode_fn (Some sample_unidecode)))
      (sample_opts true true) = Some ex
    ∧ main ascii_lower (Some sample_unidecode) sample_server
           sample_record_line sample_status_line
           (sample_opts true true) (mkWorld (Some []) [] [] [])
      = (Returned
           (Some (requests ex,
                  parse_and_encode_ngrams (yielded ex)
                    (path_join (destination_path (sample_opts true true))
                               (lit "umls-simstring.db"))
                    (path_join (destination_path (sample_opts true true))
                               (lit "cui-semtypes.db")))),
         mkWorld (Some entries) []
                 ([] ++ map sample_record_line (yielded ex)
                  ++ [sample_status_line
                        (total (sample_server
                                  (request_for (sample_opts true true)
                                               100 0)))])
                 [])
    ∧ entries = flag_files (sample_opts true true)
                ++ store_dirs (sample_opts true true)
    ∧ (path_join (destination_path (sample_opts true true))
                 (lit "normalize-unicode.flag")
       ∈ map fst entries ↔ normalize_unicode (sample_opts true true) = true)
    ∧ (path_join (destination_path (sample_opts true true))
                 (lit "lowercase.flag")
       ∈ map fst entries ↔ lowercase (sample_opts true true) = true)
    ∧ (path_join (destination_path (sample_opts true true))
                 (lit "language.flag"),
       File (language (sample_opts true true))) ∈ entries
    ∧ (path_join (destination_path (sample_opts true true))
                 (lit "database_backend.flag"),
       File (database_backend (sample_opts true true))) ∈ entries.
Proof.
  apply (main_on_prepared_directory ascii_lower (Some sample_unidecode)
           sample_server sample_record_line sample_status_line
           (sample_opts true true) [] [] []).
  intros _. by exists sample_unidecode.
Defined.

(** Any answer other than [y] (after lowering and trimming) to either
    prompt ends the run with status 1 after printing [Aborting.]: the
    destination is neither created nor emptied, no flag file is written
    and no request is sent. *)
Theorem main_declined (lower : str -> str)
  (unidecode_name : option (str -> str)) (server : Request -> Expansion)
  (record_line : ExtractedRecord -> str) (status_line : Z -> str)
  (opts : Opts) (w : World) (answer : str) (rest : list str) :
  keyboard w = answer :: rest ->
  strip (lower answer) ≠ lit "y" ->
  (dest w = None ->
   main lower unidecode_name server record_line status_line opts w
   = (Exited 1,
      mkWorld None rest
              (stdout w ++ [create_prompt opts] ++ [lit "Aborting."])
              (stderr w)))
  ∧ (∀ e es, dest w = Some (e :: es) ->
             main lower unidecode_name server record_line status_line opts w
             = (Exited 1,
                mkWorld (Some (e :: es)) rest
                        (stdout w ++ [empty_prompt opts] ++ [lit "Aborting."])
                        (stderr w))).
Proof.
  intros Hkb Hno. destruct w as [d kb out err].
  cbn [keyboard dest stdout stderr] in *. subst kb. split.
  - intros ->. unfold main. run_step.
    apply bind_exited. decide_guard. run_step.
    rewrite (bool_decide_eq_false_2 _ Hno). unfold create_prompt.
    cbn [bind print exit dest keyboard stdout stderr].
    by rewrite <- !app_assoc.
  - intros e es ->. unfold main. do 3 run_step.
    apply bind_exited. decide_guard. run_step.
    rewrite (bool_decide_eq_false_2 _ Hno). unfold empty_prompt.
    cbn [bind print exit dest keyboard stdout stderr].
    by rewrite <- !app_assoc.
Qed.

Lemma main_declined_witness :
  let w := mkWorld (Some [(lit "old.db", Directory)]) [lit "no"] [] [] in
  (dest w = None ->
   main ascii_lower None sample_server sample_record_line sample_status_line
        (sample_opts false false) w
   = (Exited 1,
      mkWorld None []
              (stdout w ++ [create_prompt (sample_opts false false)]
               ++ [lit "Aborting."])
              (stderr w)))
  ∧ (∀ e es, dest w = Some (e :: es) ->
             main ascii_lower None sample_server sample_record_line
                  sample_status_line (sample_opts false false) w
             = (Exited 1,
                mkWorld (Some (e :: es)) []
                        (stdout w ++ [empty_prompt (sample_opts false false)]
                         ++ [lit "Aborting."])
                        (stderr w))).
Proof.
  apply (main_declined ascii_lower None sample_server sample_record_line
           sample_status_line (sample_opts false false)
           (mkWorld (Some [(lit "old.db", Directory)]) [lit "no"] [] [])
           (lit "no") []).
  - reflexivity.
  - by_evaluation.
Defined.

(** The answer [y] to a prompt brings the run to where it starts on an
    empty directory: a missing destination is created, a non-empty one is
    removed with all it holds and created anew, and [main] goes on as on
    an empty directory, one line of input and one prompt later. *)
Theorem main_accepted (lower : str -> str)
  (unidecode_name : option (str -> str)) (server : Request -> Expansion)
  (record_line : ExtractedRecord -> str) (status_line : Z -> str)
  (opts : Opts) (w : World) (answer : str) (rest : list str) :
  keyboard w = answer :: rest ->
  strip (lower answer) = lit "y" ->
  (dest w = None ->
   main lower unidecode_name server record_line status_line opts w
   = main lower unidecode_name server record_line status_line opts
          (mkWorld (Some []) rest (stdout w ++ [create_prompt opts])
                   (stderr w)))
  ∧ (∀ e es, dest w = Some (e :: es) ->
             main lower unidecode_name server record_line status_line opts w
             = main lower unidecode_name server record_line status_line opts
                    (mkWorld (Some []) rest (stdout w ++ [empty_prompt opts])
                             (stderr w))).
Proof.
  intros Hkb Hyes. destruct w as [d kb out err].
  cbn [keyboard dest stdout stderr] in *. subst kb. split.
  - intros ->. unfold main. run_step.
    erewrite bind_returned;
      [| decide_guard; run_step; rewrite (bool_decide_eq_true_2 _ Hyes);
         reflexivity ].
    cbv beta. symmetry. by do 2 run_step.
  - intros e es ->. unfold main. do 3 run_step.
    erewrite bind_returned;
      [| decide_guard; run_step; rewrite (bool_decide_eq_true_2 _ Hyes);
         reflexivity ].
    cbv beta. symmetry. by do 4 run_step.
Qed.

Lemma main_accepted_witness :
  let w := mkWorld (Some [(lit "old.db", Directory)]) [lit " Y "] [] [] in
  (dest w = None ->
   main ascii_lower None sample_server sample_record_line sample_status_line
        (sample_opts false false) w
   = main ascii_lower None sample_server sample_record_line
          sample_status_line (sample_opts false false)
          (mkWorld (Some []) []
                   (stdout w ++ [create_prompt (sample_opts false false)])
                   (stderr w)))
  ∧ (∀ e es, dest w = Some (e :: es) ->
             main ascii_lower None sample_server sample_record_line
                  sample_status_line (sample_opts false false) w
             = main ascii_lower None sample_server sample_record_line
                    sample_status_line (sample_opts false false)
                    (mkWorld (Some []) []
                             (stdout w
                              ++ [empty_prompt (sample_opts false false)])
                             (stderr w))).
Proof.
  apply (main_accepted ascii_lower None sample_server sample_record_line
           sample_status_line (sample_opts false false)
           (mkWorld (Some [(lit "old.db", Directory)]) [lit " Y "] [] [])
           (lit " Y ") []).
  - reflexivity.
  - by vm_compute.
Defined.

Lemma process_concept_unidecode_unused (lower u u' : str -> str)
  (c : Concept) (opts : Opts) :
  normalize_unicode opts = false ->
  process_concept lower u c opts = process_concept lower u' c opts.
Proof.
  intros H. unfold process_concept, emit, normalize. by rewrite H.
Qed.

Lemma more_pages_ext {A} (server : Request -> Expansion)
  (f g : Concept -> Opts -> list A) (fuel : nat) (opts : Opts)
  (count offset nf : Z) :
  (∀ c, f c opts = g c opts) ->
  more_pages server f fuel opts count offset nf
  = more_pages server g fuel opts count offset nf.
Proof.
  intros H. revert offset. induction fuel as [|fuel IH]; intros offset.
  - reflexivity.
  - rewrite !more_pages_S, IH.
    by rewrite (flat_map_ext _ _ H).
Qed.

Lemma extract_from_fhir_ext {A} (server : Request -> Expansion)
  (f g : Concept -> Opts -> list A) (opts : Opts) :
  (∀ c, f c opts = g c opts) ->
  extract_from_fhir server f opts = extract_from_fhir server g opts.
Proof.
  intros H. unfold extract_from_fhir.
  by rewrite (more_pages_ext server f g _ _ _ _ _ H), (flat_map_ext _ _ H).
Qed.

(** Without the flag [normalize_unicode] the function [unidecode] is never
    called: the whole run is the same whether the import succeeded or
    not, and whatever function the name is bound to. *)
Theorem main_unidecode_unused_without_flag (lower : str -> str)
  (f : str -> str) (server : Request -> Expansion)
  (record_line : ExtractedRecord -> str) (status_line : Z -> str)
  (opts : Opts) (w : World) :
  normalize_unicode opts = false ->
  main lower None server record_line status_line opts w
  = main lower (Some f) server record_line status_line opts w
  ∧ ∀ c, process_concept lower (unidecode_fn None) c opts
         = process_concept lower f c opts.
Proof.
  intros H. split.
  - unfold main. rewrite H.
    do 10 (apply bind_ext; intros ? ?).
    by rewrite (extract_from_fhir_ext server
                  (process_concept lower (unidecode_fn None))
                  (process_concept lower (unidecode_fn (Some f))) opts
                  (fun c => process_concept_unidecode_unused lower _ _ c opts H)).
  - intros c. by apply process_concept_unidecode_unused.
Qed.

Lemma main_unidecode_unused_without_flag_witness :
  let w := mkWorld (Some []) [] [] [] in
  main ascii_lower None sample_server sample_record_line sample_status_line
       (sample_opts true false) w
  = main ascii_lower (Some sample_unidecode) sample_server
         sample_record_line sample_status_line (sample_opts true false) w
  ∧ ∀ c, process_concept ascii_lower (unidecode_fn None) c
                         (sample_opts true false)
         = process_concept ascii_lower sample_unidecode c
                           (sample_opts true false).
Proof.
  apply (main_unidecode_unused_without_flag ascii_lower sample_unidecode
           sample_server sample_record_line sample_status_line
           (sample_opts true false) (mkWorld (Some []) [] [] [])).
  reflexivity.
Defined.
